(** * EMG report: statistics engine and windowed resampling

    A shallow embedding of the numeric core of [emg_web_report.py] and
    [emg_analysis_improved.py]:

    - [calculate_statistics] (Python, pandas/numpy) -- the two-tier raw and
      percentile-trimmed statistics bundle;
    - [calculate_rms] and the raw-only [calculate_statistics] of
      [emg_analysis_improved.py];
    - the per-window loops of [updateIntegratedChart] and [updateRMSChart]
      (JavaScript embedded in the generated report);
    - the Q/B ratio cell of [displayBasicResults].

    Samples are IEEE doubles in the program.  They are modelled as real
    numbers: every arithmetic operation is the exact one, there is no
    rounding, no overflow and no NaN inside a series ([dropna] removes the
    cells that fail numeric coercion).  A property of the values computed
    is therefore a property of the program in exact arithmetic, and says
    so.  Where overflow or an infinite cell changes what the program does,
    module [Binary64] computes the trimming thresholds and the mask on
    binary64 numbers, as the program does. *)

From Stdlib Require Import Reals Lra Lia List ZArith Bool Arith.
From Stdlib Require String.
From Stdlib Require PrimFloat Uint63.
From Stdlib Require Import Permutation Sorted.
Import ListNotations.

Open Scope R_scope.

(** ** Series extraction *)

(** A cell of a column after [pd.to_numeric(..., errors='coerce')]: a number,
    or [None] for a cell that failed coercion (NaN). *)
Definition cell := option R.

(** [pd.to_numeric(series, errors='coerce').dropna()]: failed cells are
    dropped, the order of the remaining samples is kept. *)
Fixpoint dropna (series : list cell) : list R :=
  match series with
  | [] => []
  | Some x :: rest => x :: dropna rest
  | None :: rest => dropna rest
  end.

(** ** numpy / pandas reductions *)

Definition Rleb (x y : R) : bool := if Rle_dec x y then true else false.

Definition np_sum (a : list R) : R := fold_left Rplus a 0.

(** [numeric_series**2] *)
Definition squares (a : list R) : list R := map (fun x => x * x) a.

(** [np.mean]: sum over count. *)
Definition np_mean (a : list R) : R := np_sum a / INR (length a).

(** [np.std] on a Series: numpy forwards to [Series.std(ddof=0)], which is
    the square root of the mean squared deviation from the mean, the
    divisor being [count - ddof = count]. *)
Definition np_std (a : list R) : R :=
  let avg := np_mean a in
  sqrt (np_sum (map (fun x => (avg - x) * (avg - x)) a) / INR (length a - 0)).

(** [np.max], [np.min].  On an empty series pandas answers NaN; the model
    answers 0 there. *)
Definition np_max (a : list R) : R :=
  match a with
  | [] => 0
  | x :: rest => fold_left Rmax rest x
  end.

Definition np_min (a : list R) : R :=
  match a with
  | [] => 0
  | x :: rest => fold_left Rmin rest x
  end.

(** Sorting, for the order statistics behind [np.percentile]. *)
Fixpoint insert_sorted (x : R) (l : list R) : list R :=
  match l with
  | [] => [x]
  | y :: rest => if Rleb x y then x :: y :: rest else y :: insert_sorted x rest
  end.

Fixpoint np_sort (a : list R) : list R :=
  match a with
  | [] => []
  | x :: rest => insert_sorted x (np_sort rest)
  end.

(** [np.percentile(a, q)] with numpy's default method, ['linear']:
    the virtual index is [(n - 1) * q / 100]; the two neighbouring order
    statistics are interpolated linearly with the fractional part of the
    virtual index as weight; the upper neighbour is clipped to the last
    position. *)
Definition virtual_index (a : list R) (q : R) : R :=
  INR (length a - 1) * (q / 100).

Definition previous_index (a : list R) (q : R) : nat :=
  Z.to_nat (Int_part (virtual_index a q)).

Definition next_index (a : list R) (q : R) : nat :=
  Nat.min (previous_index a q + 1) (length a - 1).

Definition gamma (a : list R) (q : R) : R :=
  virtual_index a q - IZR (Int_part (virtual_index a q)).

Definition np_percentile (a : list R) (q : R) : R :=
  let arr := np_sort a in
  let lo := nth (previous_index a q) arr 0 in
  let hi := nth (next_index a q) arr 0 in
  lo + (hi - lo) * gamma a q.

(** ** emg_web_report.py: calculate_statistics *)

Record stat_bundle : Type := {
  RMS : R;
  Mean : R;
  Std : R;
  Max : R;
  Min : R;
  Count : Z;
  RMS_filtered : R;
  Mean_filtered : R;
  Std_filtered : R;
  Max_filtered : R;
  Min_filtered : R;
  Count_filtered : Z;
  Outliers_removed : Z
}.

Definition len (a : list R) : Z := Z.of_nat (length a).

(** The boolean mask [(numeric_series >= lower) & (numeric_series <= upper)]
    applied to the series. *)
Definition mask_between (lower upper : R) (a : list R) : list R :=
  filter (fun x => Rleb lower x && Rleb x upper) a.

Section CalculateStatistics.

  (** [np.percentile] is library code; the engine is written over any
      percentile function and instantiated with the linear method below. *)
Variable percentile : list R -> R -> R.

Definition calculate_statistics_with
      (series : list cell) (remove_outliers : bool) : stat_bundle :=
    let numeric_series := dropna series in
    match numeric_series with
    | [] =>
        {| RMS := 0; Mean := 0; Std := 0; Max := 0; Min := 0; Count := 0;
           RMS_filtered := 0; Mean_filtered := 0; Std_filtered := 0;
           Max_filtered := 0; Min_filtered := 0; Count_filtered := 0;
           Outliers_removed := 0 |}
    | _ :: _ =>
        let o_RMS := sqrt (np_mean (squares numeric_series)) in
        let o_Mean := np_mean numeric_series in
        let o_Std := np_std numeric_series in
        let o_Max := np_max numeric_series in
        let o_Min := np_min numeric_series in
        let o_Count := len numeric_series in
        if remove_outliers && (20 <? len numeric_series)%Z then
          let lower_percentile := percentile numeric_series 2.5 in
          let upper_percentile := percentile numeric_series 97.5 in
          let filtered_series :=
            mask_between lower_percentile upper_percentile numeric_series in
          let outliers_removed :=
            (len numeric_series - len filtered_series)%Z in
          {| RMS := o_RMS; Mean := o_Mean; Std := o_Std;
             Max := o_Max; Min := o_Min; Count := o_Count;
             RMS_filtered := sqrt (np_mean (squares filtered_series));
             Mean_filtered := np_mean filtered_series;
             Std_filtered := np_std filtered_series;
             Max_filtered := np_max filtered_series;
             Min_filtered := np_min filtered_series;
             Count_filtered := len filtered_series;
             Outliers_removed := outliers_removed |}
        else
          {| RMS := o_RMS; Mean := o_Mean; Std := o_Std;
             Max := o_Max; Min := o_Min; Count := o_Count;
             RMS_filtered := o_RMS;
             Mean_filtered := o_Mean;
             Std_filtered := o_Std;
             Max_filtered := o_Max;
             Min_filtered := o_Min;
             Count_filtered := o_Count;
             Outliers_removed := 0 |}
    end.

End CalculateStatistics.

Definition calculate_statistics (series : list cell) (remove_outliers : bool)
    : stat_bundle :=
  calculate_statistics_with np_percentile series remove_outliers.

(** ** emg_analysis_improved.py: calculate_rms and the raw-only bundle *)

Module Improved.

Definition calculate_rms (series : list cell) : R :=
    let numeric_series := dropna series in
    match numeric_series with
    | [] => 0
    | _ :: _ => sqrt (np_mean (squares numeric_series))
    end.

Record raw_bundle : Type := {
    RMS : R;
    Mean : R;
    Std : R;
    Max : R;
    Min : R;
    Count : Z
  }.

Definition calculate_statistics (series : list cell) : raw_bundle :=
    let numeric_series := dropna series in
    match numeric_series with
    | [] =>
        {| RMS := 0; Mean := 0; Std := 0; Max := 0; Min := 0; Count := 0 |}
    | _ :: _ =>
        {| RMS := sqrt (np_mean (squares numeric_series));
           Mean := np_mean numeric_series;
           Std := np_std numeric_series;
           Max := np_max numeric_series;
           Min := np_min numeric_series;
           Count := len numeric_series |}
    end.

End Improved.

(** ** Report assembly: the Q/B ratio cell of displayBasicResults *)

(** One entry of [analysis_results], as [analyze_emg_data] builds it from the
    two channel bundles of a source. *)
Record result_row : Type := {
  quadRMS : R;        (* quad_stats['RMS_filtered'] *)
  bicepRMS : R;       (* bicep_stats['RMS_filtered'] *)
  quadRMS_orig : R;   (* quad_stats['RMS'] *)
  bicepRMS_orig : R   (* bicep_stats['RMS'] *)
}.

Definition analysis_row (quad_col bicep_col : list cell) : result_row :=
  let quad_stats := calculate_statistics quad_col true in
  let bicep_stats := calculate_statistics bicep_col true in
  {| quadRMS := RMS_filtered quad_stats;
     bicepRMS := RMS_filtered bicep_stats;
     quadRMS_orig := RMS quad_stats;
     bicepRMS_orig := RMS bicep_stats |}.

(** [Number.prototype.toFixed(3)]: the integer [n] with [n / 1000] nearest to
    the magnitude of [x], the larger one on a tie, with the sign of [x].
    The digits are represented by the number of thousandths. *)
Definition toFixed3 (x : R) : Z :=
  if Rlt_dec x 0 then (- Int_part (- x * 1000 + / 2))%Z
  else Int_part (x * 1000 + / 2).

(** The text of the ratio cell. *)
Inductive ratio_cell : Type :=
| NA                         (* the string 'N/A' *)
| Fixed3 (thousandths : Z).  (* a number printed with three decimals *)

Definition js_neq_zero (x : R) : bool :=
  if Req_dec_T x 0 then false else true.

(** [bicepRMS !== 0 ? (quadRMS / bicepRMS).toFixed(3) : 'N/A'] *)
Definition ratio (data : result_row) : ratio_cell :=
  if js_neq_zero (bicepRMS data)
  then Fixed3 (toFixed3 (quadRMS data / bicepRMS data))
  else NA.

(** ** Windowed resampling: updateIntegratedChart and updateRMSChart *)

(** [Array.prototype.slice(b, e)] for indices [0 <= b]: the elements at
    positions [b .. min e length - 1], none when [e <= b]. *)
Definition slice {A : Type} (l : list A) (b e : nat) : list A :=
  firstn (e - b) (skipn b l).

(** [data.sampling_rate || 1000]: a missing or zero rate falls back to
    1000 Hz.  [analyze_emg_data] stores 2000 for Noraxon and 1000 otherwise. *)
Definition sampling_rate_or_default (sampling_rate : option nat) : nat :=
  match sampling_rate with
  | None => 1000
  | Some O => 1000
  | Some r => r
  end.

(** [analyze_emg_data]: [2000 if config['type'] == 'Noraxon' else 1000]. *)
Inductive source_type : Type := Noraxon | Other.

Definition assigned_sampling_rate (t : source_type) : nat :=
  match t with
  | Noraxon => 2000
  | Other => 1000
  end.

(** [Math.min(yData.length, samplingRate * 10)] *)
Definition maxSamples (yData : list R) (samplingRate : nat) : nat :=
  Nat.min (length yData) (samplingRate * 10).

(** [yData.slice(0, maxSamples)] *)
Definition limitedData (yData : list R) (samplingRate : nat) : list R :=
  slice yData 0 (maxSamples yData samplingRate).

(** [Math.floor(samplingRate * 0.1)] for an integral rate. *)
Definition windowSize (samplingRate : nat) : nat := (samplingRate / 10)%nat.

(** [window.reduce((sum, val) => sum + val, 0) / window.length] *)
Definition window_avg (window : list R) : R :=
  fold_left (fun sum val => sum + val) window 0 / INR (length window).

(** [Math.sqrt(window.reduce((sum, val) => sum + val * val, 0) / window.length)] *)
Definition window_rms (window : list R) : R :=
  sqrt (fold_left (fun sum val => sum + val * val) window 0
        / INR (length window)).

(** The [for (let i = 0; i < limitedData.length; i += windowSize)] loop of
    [updateIntegratedChart].  [fuel] bounds the number of times the loop
    condition is evaluated; [None] means the loop is still running when the
    fuel is spent. *)
Module IntegratedChart.

Record state : Type := {
    i : nat;
    sampledY : list R;
    timeData : list R
  }.

Definition body (data : list R) (samplingRate wsize : nat) (st : state)
      : state :=
    let window := slice data (i st) (i st + wsize) in
    if (0 <? length window)%nat then
      {| i := i st + wsize;
         sampledY := sampledY st ++ [window_avg window];
         timeData := timeData st ++ [INR (i st) / INR samplingRate] |}
    else
      {| i := i st + wsize;
         sampledY := sampledY st;
         timeData := timeData st |}.

Fixpoint loop (fuel : nat) (data : list R) (samplingRate wsize : nat)
      (st : state) : option state :=
    match fuel with
    | O => None
    | S fuel' =>
        if (i st <? length data)%nat
        then loop fuel' data samplingRate wsize (body data samplingRate wsize st)
        else Some st
    end.

(** [let i = 0], [sampledY = []], [timeData = []]. *)
Definition init : state := {| i := 0; sampledY := []; timeData := [] |}.

(** The states the loop passes through: the initial one, and the one after
    an execution of the body from a state in which the condition holds. *)
Inductive reachable (data : list R) (samplingRate wsize : nat)
    : state -> Prop :=
| reach_init : reachable data samplingRate wsize init
| reach_body (st : state) :
    reachable data samplingRate wsize st ->
    (i st < length data)%nat ->
    reachable data samplingRate wsize (body data samplingRate wsize st).

(** The trace pushed for one checked series: [(x, y) = (timeData, sampledY)]. *)
Definition resample (fuel : nat) (yData : list R)
      (sampling_rate : option nat) : option (list R * list R) :=
    let samplingRate := sampling_rate_or_default sampling_rate in
    let data := limitedData yData samplingRate in
    let wsize := windowSize samplingRate in
    match loop fuel data samplingRate wsize init with
    | Some st => Some (timeData st, sampledY st)
    | None => None
    end.

End IntegratedChart.

(** The same loop in [updateRMSChart]. *)
Module RMSChart.

Record state : Type := {
    i : nat;
    rmsValues : list R;
    timeData : list R
  }.

Definition body (data : list R) (samplingRate wsize : nat) (st : state)
      : state :=
    let window := slice data (i st) (i st + wsize) in
    if (0 <? length window)%nat then
      {| i := i st + wsize;
         rmsValues := rmsValues st ++ [window_rms window];
         timeData := timeData st ++ [INR (i st) / INR samplingRate] |}
    else
      {| i := i st + wsize;
         rmsValues := rmsValues st;
         timeData := timeData st |}.

Fixpoint loop (fuel : nat) (data : list R) (samplingRate wsize : nat)
      (st : state) : option state :=
    match fuel with
    | O => None
    | S fuel' =>
        if (i st <? length data)%nat
        then loop fuel' data samplingRate wsize (body data samplingRate wsize st)
        else Some st
    end.

Definition init : state := {| i := 0; rmsValues := []; timeData := [] |}.

Inductive reachable (data : list R) (samplingRate wsize : nat)
    : state -> Prop :=
| reach_init : reachable data samplingRate wsize init
| reach_body (st : state) :
    reachable data samplingRate wsize st ->
    (i st < length data)%nat ->
    reachable data samplingRate wsize (body data samplingRate wsize st).

Definition resample (fuel : nat) (yData : list R)
      (sampling_rate : option nat) : option (list R * list R) :=
    let samplingRate := sampling_rate_or_default sampling_rate in
    let data := limitedData yData samplingRate in
    let wsize := windowSize samplingRate in
    match loop fuel data samplingRate wsize init with
    | Some st => Some (timeData st, rmsValues st)
    | None => None
    end.

End RMSChart.

(** ** The common shape of the two loops

    Both loops are the same iteration over the per-window reduction; the
    properties of the iteration are proved once on this form and carried to
    each loop through [integrated_abs] and [rms_abs]. *)

Record trace_state : Type := {
  pos : nat;
  values : list R;
  times : list R
}.

Definition window_body (reduce : list R -> R) (data : list R)
    (samplingRate wsize : nat) (st : trace_state) : trace_state :=
  let window := slice data (pos st) (pos st + wsize) in
  if (0 <? length window)%nat then
    {| pos := pos st + wsize;
       values := values st ++ [reduce window];
       times := times st ++ [INR (pos st) / INR samplingRate] |}
  else
    {| pos := pos st + wsize; values := values st; times := times st |}.

Fixpoint window_loop (reduce : list R -> R) (fuel : nat) (data : list R)
    (samplingRate wsize : nat) (st : trace_state) : option trace_state :=
  match fuel with
  | O => None
  | S fuel' =>
      if (pos st <? length data)%nat
      then window_loop reduce fuel' data samplingRate wsize
             (window_body reduce data samplingRate wsize st)
      else Some st
  end.

Definition integrated_abs (st : IntegratedChart.state) : trace_state :=
  {| pos := IntegratedChart.i st;
     values := IntegratedChart.sampledY st;
     times := IntegratedChart.timeData st |}.

Definition rms_abs (st : RMSChart.state) : trace_state :=
  {| pos := RMSChart.i st;
     values := RMSChart.rmsValues st;
     times := RMSChart.timeData st |}.

(** Invariant of the loop: the position is a whole number of strides, one
    value and one time stamp have been pushed per window, and the [j]-th
    pair is the reduction of the samples from index [j * wsize] on and the
    time of the sample at index [j * wsize]. *)
Definition window_invariant (reduce : list R -> R) (data : list R)
    (samplingRate wsize : nat) (st : trace_state) : Prop :=
  pos st = (length (times st) * wsize)%nat
  /\ length (values st) = length (times st)
  /\ (times st <> [] -> 0 < wsize)%nat
  /\ forall j, (j < length (times st))%nat ->
       nth j (times st) 0 = INR (j * wsize) / INR samplingRate
       /\ nth j (values st) 0
          = reduce (slice data (j * wsize) (j * wsize + wsize))
       /\ (j * wsize < length data)%nat.

(** ** Specification-side definitions for the windowing engine *)

(** Number of windows: [ceil(n / w)]. *)
Definition ceil_div (n w : nat) : nat := ((n + w - 1) / w)%nat.

(** The [k]-th window of a partition of [data] into consecutive windows of
    [w] samples: the samples at positions [k*w .. k*w + w - 1]. *)
Definition nth_window (data : list R) (w k : nat) : list R :=
  slice data (k * w) (k * w + w).

(** The partition itself, in original order, a shorter last window kept. *)
Definition partition_windows (data : list R) (w : nat) : list (list R) :=
  map (nth_window data w) (seq 0 (ceil_div (length data) w)).

(** Leading-edge time stamp of the [k]-th window. *)
Definition leading_edge (samplingRate w k : nat) : R :=
  INR (k * w) / INR samplingRate.

(** ** Specification-side definitions for the statistics engine *)

(** [sum_i x_i] *)
Fixpoint Rsum (x : list R) : R :=
  match x with
  | [] => 0
  | xi :: rest => xi + Rsum rest
  end.

(** [sqrt((1/N) * sum_i x_i^2)] *)
Definition rms_spec (x : list R) : R :=
  sqrt (1 / INR (length x) * Rsum (map (fun xi => xi ^ 2) x)).

(** [(1/N) * sum_i x_i] *)
Definition mean_spec (x : list R) : R :=
  1 / INR (length x) * Rsum x.

(** Population standard deviation: the squared deviations are divided by
    [N]. *)
Definition population_std_spec (x : list R) : R :=
  sqrt (1 / INR (length x) * Rsum (map (fun xi => (xi - mean_spec x) ^ 2) x)).

(** Sample standard deviation (divisor [N - 1]), for contrast. *)
Definition sample_std_spec (x : list R) : R :=
  sqrt (1 / (INR (length x) - 1)
        * Rsum (map (fun xi => (xi - mean_spec x) ^ 2) x)).

(** [m] is the greatest (least) element of [x]. *)
Definition is_max_of (m : R) (x : list R) : Prop :=
  In m x /\ forall xi, In xi x -> xi <= m.

Definition is_min_of (m : R) (x : list R) : Prop :=
  In m x /\ forall xi, In xi x -> m <= xi.

(** The samples retained by trimming to the closed interval [[lo, hi]]. *)
Definition retained_spec (lo hi : R) (x : list R) : list R :=
  filter (fun xi => if Rle_dec lo xi then (if Rle_dec xi hi then true else false)
                    else false) x.

(** Linear-interpolation percentile written with integer division: for the
    sorted samples [s] of an [n]-element series and the fraction
    [num / den] of the way through them, position [(n-1)*num / den] is
    interpolated with its successor, the weight being the remainder over
    [den]. *)
Definition linear_percentile_spec (x : list R) (num den : nat) : R :=
  let s := np_sort x in
  let m := (length x - 1)%nat in
  let k := ((m * num) / den)%nat in
  let w := INR ((m * num) mod den) / INR den in
  (1 - w) * nth k s 0 + w * nth (Nat.min (k + 1) m) s 0.

(** The all-zero bundle. *)
Definition zero_bundle : stat_bundle :=
  {| RMS := 0; Mean := 0; Std := 0; Max := 0; Min := 0; Count := 0;
     RMS_filtered := 0; Mean_filtered := 0; Std_filtered := 0;
     Max_filtered := 0; Min_filtered := 0; Count_filtered := 0;
     Outliers_removed := 0 |}.

(** ** displayDetailedStats: the derived cells of a statistics card *)

(** The value of a JavaScript division of two finite numbers: the quotient,
    or, when the divisor is zero, NaN for [0 / 0] and an infinity
    otherwise. *)
Inductive js_number : Type :=
| Finite (r : R)
| PosInfinity
| NegInfinity
| NaN.

Definition js_div (x y : R) : js_number :=
  if Req_dec_T y 0 then
    if Req_dec_T x 0 then NaN
    else if Rlt_dec 0 x then PosInfinity else NegInfinity
  else Finite (x / y).

(** [v * 100] *)
Definition js_times_100 (v : js_number) : js_number :=
  match v with
  | Finite r => Finite (r * 100)
  | PosInfinity => PosInfinity
  | NegInfinity => NegInfinity
  | NaN => NaN
  end.

(** [toFixed(digits)] of a finite number, as the number of units of the last
    printed decimal. *)
Definition toFixed (digits : nat) (x : R) : Z :=
  if Rlt_dec x 0 then (- Int_part (- x * 10 ^ digits + / 2))%Z
  else Int_part (x * 10 ^ digits + / 2).

(** The text of a card cell. *)
Inductive stat_text : Type :=
| Text_NA                                  (* 'N/A' *)
| Text_fixed (digits : nat) (units : Z)    (* a number with [digits] decimals *)
| Text_Infinity
| Text_NegInfinity
| Text_NaN.

(** [v.toFixed(digits)]: a non-finite number prints as its name. *)
Definition js_toFixed (digits : nat) (v : js_number) : stat_text :=
  match v with
  | Finite r => Text_fixed digits (toFixed digits r)
  | PosInfinity => Text_Infinity
  | NegInfinity => Text_NegInfinity
  | NaN => Text_NaN
  end.

(** [mean !== 0 ? ((std / mean) * 100).toFixed(2) : 'N/A'] *)
Definition cv_cell (std mean : R) : stat_text :=
  if js_neq_zero mean
  then js_toFixed 2 (js_times_100 (js_div std mean))
  else Text_NA.

(** [((stats.Outliers_removed / stats.Count) * 100).toFixed(1)] *)
Definition outlier_percent_cell (stats : stat_bundle) : stat_text :=
  js_toFixed 1
    (js_times_100
       (js_div (IZR (Outliers_removed stats)) (IZR (Count stats)))).

Record detail_cells : Type := {
  cv_filtered : stat_text;
  cv_original : stat_text;
  outlier_percent : stat_text
}.

Definition displayDetailedStats_cells (stats : stat_bundle) : detail_cells :=
  {| cv_filtered := cv_cell (Std_filtered stats) (Mean_filtered stats);
     cv_original := cv_cell (Std stats) (Mean stats);
     outlier_percent := outlier_percent_cell stats |}.

(** ** createTimeSeriesChart: time axis and the two-sigma band *)

(** [data.map((_, i) => i / samplingRate)], from index [i] on. *)
Fixpoint time_axis_from (i : nat) (data : list R) (samplingRate : nat)
    : list R :=
  match data with
  | [] => []
  | _ :: rest =>
      INR i / INR samplingRate :: time_axis_from (S i) rest samplingRate
  end.

(** [data.reduce((a, b) => a + b, 0) / data.length] *)
Definition chart_mean (data : list R) : R :=
  fold_left (fun a b => a + b) data 0 / INR (length data).

(** [Math.sqrt(data.reduce((a, b) => a + (b - mean) ** 2, 0) / data.length)] *)
Definition chart_std (data : list R) (mean : R) : R :=
  sqrt (fold_left (fun a b => a + (b - mean) ^ 2) data 0 / INR (length data)).

(** A Plotly trace, reduced to its coordinates. *)
Record trace : Type := {
  trace_x : list R;
  trace_y : list R
}.

(** The signal trace: [x: timeAxis, y: data]. *)
Definition signal_trace (data : list R) (samplingRate : nat) : trace :=
  {| trace_x := time_axis_from 0 data samplingRate; trace_y := data |}.

(** The band trace:
    [x: timeAxis.concat(timeAxis.slice().reverse())],
    [y: upper.concat(lower.reverse())]. *)
Definition band_trace (data : list R) (samplingRate : nat) : trace :=
  let timeAxis := time_axis_from 0 data samplingRate in
  let mean := chart_mean data in
  let std := chart_std data mean in
  let upper := map (fun _ => mean + 2 * std) data in
  let lower := map (fun _ => mean - 2 * std) data in
  {| trace_x := timeAxis ++ rev timeAxis;
     trace_y := upper ++ rev lower |}.

(** ** analyze_emg_data: the loop over the configured sources *)

(** The keys of [file_configs]: '419-...', '445-...', 'Noraxon'. *)
Inductive source_name : Type := S419 | S445 | SNoraxon.

(** The header labels the Noraxon configuration selects. *)
Module Labels.
Import String.
Local Open Scope string_scope.

Definition RT_VMO : string := "RT VMO (uV)".
Definition RT_SEMITEND : string := "RT SEMITEND. (uV)".

End Labels.

(** A column selector: a position ([7], [3]) or a header label. *)
Inductive column_key : Type :=
| Position (n : nat)
| Label (name : String.string).

Record source_config : Type := {
  quad_col : column_key;
  bicep_col : column_key;
  type : source_type
}.

Definition file_configs : list (source_name * source_config) :=
  [ (S419, {| quad_col := Position 7; bicep_col := Position 3;
              type := Other |});
    (S445, {| quad_col := Position 7; bicep_col := Position 3;
              type := Other |});
    (SNoraxon, {| quad_col := Label Labels.RT_VMO;
                  bicep_col := Label Labels.RT_SEMITEND;
                  type := Noraxon |}) ].

(** A parsed file: the column a selector picks, or [None] when the selector
    names no column (pandas raises [KeyError]). *)
Definition data_frame : Type := column_key -> option (list cell).

(** The backing file of a source when the analysis runs: not there, there
    but [pd.read_csv] raises, or parsed. *)
Inductive file_state : Type :=
| Absent
| Unreadable
| Readable (df : data_frame).

Record time_series_entry : Type := {
  quad_data : list R;
  bicep_data : list R;
  entry_sampling_rate : nat
}.

(** Three of the dictionaries [analyze_emg_data] returns, in insertion
    order. *)
Record analysis : Type := {
  analysis_results : list (source_name * result_row);
  detailed_stats : list (source_name * (stat_bundle * stat_bundle));
  time_series_data : list (source_name * time_series_entry)
}.

Definition no_analysis : analysis :=
  {| analysis_results := []; detailed_stats := []; time_series_data := [] |}.

(** One turn of [for name, config in file_configs.items()]: a missing file
    is skipped by [continue]; an exception -- from [read_csv] or from a
    column access, both before anything is stored -- is caught and the
    source skipped; otherwise the entries of the source are stored. *)
Definition process_source (files : source_name -> file_state)
    (acc : analysis) (item : source_name * source_config) : analysis :=
  let name := fst item in
  let config := snd item in
  match files name with
  | Absent => acc
  | Unreadable => acc
  | Readable df =>
      match df (quad_col config), df (bicep_col config) with
      | Some quad, Some bicep =>
          {| analysis_results :=
               analysis_results acc ++ [(name, analysis_row quad bicep)];
             detailed_stats :=
               detailed_stats acc
               ++ [(name, (calculate_statistics quad true,
                           calculate_statistics bicep true))];
             time_series_data :=
               time_series_data acc
               ++ [(name,
                    {| quad_data := dropna quad;
                       bicep_data := dropna bicep;
                       entry_sampling_rate :=
                         assigned_sampling_rate (type config) |})] |}
      | _, _ => acc
      end
  end.

Definition analyze_emg_data (files : source_name -> file_state) : analysis :=
  fold_left (process_source files) file_configs no_analysis.

(** What the page does when it loads ([init]). *)
Inductive page_action : Type :=
| DisplayBasicResults
| DisplayDetailedStats
| CreateIntegratedChart
| CreateRMSChart
| CreateTimeSeriesChart (datasetName : source_name)
| ShowNoData.

(** [init]: with at least one analysed source the tables and all charts are
    built ([emgData.timeSeriesData] is always an object); otherwise only the
    no-data message is shown. *)
Definition init (emgData : analysis) : list page_action :=
  if (0 <? length (analysis_results emgData))%nat then
    [DisplayBasicResults; DisplayDetailedStats;
     CreateIntegratedChart; CreateRMSChart;
     CreateTimeSeriesChart S419; CreateTimeSeriesChart S445;
     CreateTimeSeriesChart SNoraxon]
  else [ShowNoData].

(** [createTimeSeriesChart(datasetName, ...)]: nothing is plotted for a
    data set that is not in [timeSeriesData]; otherwise the four traces
    [quadBandTrace, bicepBandTrace, quadTrace, bicepTrace]. *)
Fixpoint find_source {A : Type} (name : source_name)
    (dict : list (source_name * A)) : option A :=
  match dict with
  | [] => None
  | (key, value) :: rest =>
      match name, key with
      | S419, S419 | S445, S445 | SNoraxon, SNoraxon => Some value
      | _, _ => find_source name rest
      end
  end.


(** The outcome of one source taken alone, for the specification side:
    its three entries, or nothing. *)
Definition source_outcome (files : source_name -> file_state)
    (item : source_name * source_config)
    : option (result_row * (stat_bundle * stat_bundle) * time_series_entry) :=
  match files (fst item) with
  | Readable df =>
      match df (quad_col (snd item)), df (bicep_col (snd item)) with
      | Some quad, Some bicep =>
          Some (analysis_row quad bicep,
                (calculate_statistics quad true,
                 calculate_statistics bicep true),
                {| quad_data := dropna quad;
                   bicep_data := dropna bicep;
                   entry_sampling_rate :=
                     assigned_sampling_rate (type (snd item)) |})
      | _, _ => None
      end
  | _ => None
  end.

(** The analysed sources with their entries, in configuration order. *)
Definition analysis_outcomes (files : source_name -> file_state)
    : list (source_name
            * (result_row * (stat_bundle * stat_bundle) * time_series_entry)) :=
  flat_map
    (fun item =>
       match source_outcome files item with
       | Some entries => [(fst item, entries)]
       | None => []
       end)
    file_configs.

(** ** The trimming step in binary64

    The definitions above read the program over the real numbers.  Here the
    trimming thresholds and the mask are computed as the program computes
    them, on IEEE binary64 numbers: [np.percentile] with the linear method
    (virtual index, neighbouring order statistics, numpy's [_lerp]) and the
    comparison mask of [calculate_statistics].  A series is the list of
    doubles left by [dropna], which removes NaN but keeps infinities. *)
Module Binary64.
Import PrimFloat.
Local Set Warnings "-inexact-float".
Local Open Scope float_scope.

Definition nat_to_float (n : nat) : float :=
  of_uint63 (Uint63.of_Z (Z.of_nat n)).

Fixpoint insert_sorted (x : float) (l : list float) : list float :=
  match l with
  | [] => [x]
  | y :: rest => if x <=? y then x :: y :: rest else y :: insert_sorted x rest
  end.

Fixpoint np_sort (a : list float) : list float :=
  match a with
  | [] => []
  | x :: rest => insert_sorted x (np_sort rest)
  end.

(** [np.floor(virtual_index).astype(np.intp)] for a virtual index between 0
    and [bound]: the greatest integer up to [bound] that does not exceed
    it. *)
Fixpoint floor_index (virtual_index : float) (bound : nat) : nat :=
  match bound with
  | O => O
  | S smaller =>
      if nat_to_float bound <=? virtual_index then bound
      else floor_index virtual_index smaller
  end.

(** numpy's [_lerp(a, b, t)]: [a + (b - a) * t], replaced by
    [b - (b - a) * (1 - t)] where [t >= 0.5]. *)
Definition lerp (a b t : float) : float :=
  let diff_b_a := b - a in
  if 0.5 <=? t then b - diff_b_a * (1 - t) else a + diff_b_a * t.

(** [np.percentile(a, q)], linear method: [q / 100], the virtual index
    [(n - 1) * quantile], its floor and successor (both the last position
    when the virtual index reaches [n - 1]), the fractional part, and the
    interpolation of the two order statistics. *)
Definition np_percentile (a : list float) (q : float) : float :=
  let arr := np_sort a in
  let n := length a in
  let virtual_index := nat_to_float (n - 1) * (q / 100) in
  let above_bounds := nat_to_float (n - 1) <=? virtual_index in
  let previous_index :=
    if above_bounds then (n - 1)%nat
    else floor_index virtual_index (n - 1) in
  let next_index :=
    if above_bounds then (n - 1)%nat else (previous_index + 1)%nat in
  let gamma :=
    virtual_index
    - (if above_bounds then opp 1 else nat_to_float previous_index) in
  lerp (nth previous_index arr nan) (nth next_index arr nan) gamma.

(** [numeric_series[(numeric_series >= lower_percentile)
                    & (numeric_series <= upper_percentile)]] *)
Definition lower_percentile (numeric_series : list float) : float :=
  np_percentile numeric_series 2.5.

Definition upper_percentile (numeric_series : list float) : float :=
  np_percentile numeric_series 97.5.

Definition filtered_series (numeric_series : list float) : list float :=
  filter
    (fun x => (lower_percentile numeric_series <=? x)
              && (x <=? upper_percentile numeric_series))
    numeric_series.

(** The [Count_filtered] field: [len(filtered_series)] in the trimming
    branch, [len(numeric_series)] otherwise. *)
Definition Count_filtered (numeric_series : list float)
    (remove_outliers : bool) : Z :=
  if remove_outliers && (20 <? Z.of_nat (length numeric_series))%Z
  then Z.of_nat (length (filtered_series numeric_series))
  else Z.of_nat (length numeric_series).

(** The [Outliers_removed] field. *)
Definition Outliers_removed (numeric_series : list float)
    (remove_outliers : bool) : Z :=
  if remove_outliers && (20 <? Z.of_nat (length numeric_series))%Z
  then (Z.of_nat (length numeric_series)
        - Z.of_nat (length (filtered_series numeric_series)))%Z
  else 0%Z.

(** Fifty-one finite samples: two cells [-1e308] and forty-nine cells
    [1e308]. *)
Definition overflow_series : list float :=
  [opp 1e308; opp 1e308] ++ repeat 1e308 49.

(** Twenty-one samples: twenty cells [1.0] and one cell [inf]. *)
Definition infinite_cell_series : list float :=
  repeat 1 20 ++ [infinity].

End Binary64.

(** * Properties *)

(** ** Sums, means, extrema *)

Lemma fold_left_Rplus_acc (a : list R) (acc : R) :
  fold_left Rplus a acc = acc + Rsum a.
Proof.
  revert acc; induction a as [|x a IH]; intros acc; simpl.
  - lra.
  - rewrite IH. lra.
Qed.

Lemma np_sum_Rsum (a : list R) : np_sum a = Rsum a.
Proof. unfold np_sum. rewrite fold_left_Rplus_acc. lra. Qed.

Lemma Rsum_map_ext (f g : R -> R) (a : list R) :
  (forall x, f x = g x) -> Rsum (map f a) = Rsum (map g a).
Proof.
  intros E; induction a as [|x a IH]; simpl; [reflexivity|].
  now rewrite E, IH.
Qed.

Lemma Rsum_squares_nonneg (f : R -> R) (a : list R) :
  0 <= Rsum (map (fun x => f x * f x) a).
Proof.
  induction a as [|x a IH]; simpl; [lra|].
  pose proof (Rle_0_sqr (f x)) as H. unfold Rsqr in H. lra.
Qed.

Lemma np_mean_spec (a : list R) : np_mean a = mean_spec a.
Proof.
  unfold np_mean, mean_spec. rewrite np_sum_Rsum.
  unfold Rdiv. lra.
Qed.

Lemma rms_is_spec (a : list R) : sqrt (np_mean (squares a)) = rms_spec a.
Proof.
  unfold rms_spec, np_mean, squares. rewrite np_sum_Rsum, length_map.
  f_equal. unfold Rdiv.
  rewrite (Rsum_map_ext (fun x => x * x) (fun x => x ^ 2)) by (intros; lra).
  lra.
Qed.

Lemma np_std_spec (a : list R) : np_std a = population_std_spec a.
Proof.
  unfold np_std, population_std_spec. rewrite np_sum_Rsum, np_mean_spec.
  rewrite Nat.sub_0_r. f_equal. unfold Rdiv.
  rewrite (Rsum_map_ext (fun x => (mean_spec a - x) * (mean_spec a - x))
                        (fun x => (x - mean_spec a) ^ 2)) by (intros; lra).
  lra.
Qed.

Lemma fold_left_Rmax_spec (a : list R) (x : R) :
  is_max_of (fold_left Rmax a x) (x :: a).
Proof.
  revert x; induction a as [|y a IH]; intros x; simpl.
  - split; [now left|]. intros z [<-|[]]. lra.
  - destruct (IH (Rmax x y)) as [Hin Hub]. split.
    + destruct Hin as [E|Hin].
      * rewrite <- E. unfold Rmax. destruct (Rle_dec x y); simpl; auto.
      * simpl; auto.
    + assert (Hm : Rmax x y <= fold_left Rmax a (Rmax x y)) by (apply Hub; now left).
      intros z [E|[E|Hz]]; subst.
      * pose proof (Rmax_l z y). lra.
      * pose proof (Rmax_r x z). lra.
      * apply Hub. now right.
Qed.

Lemma fold_left_Rmin_spec (a : list R) (x : R) :
  is_min_of (fold_left Rmin a x) (x :: a).
Proof.
  revert x; induction a as [|y a IH]; intros x; simpl.
  - split; [now left|]. intros z [<-|[]]. lra.
  - destruct (IH (Rmin x y)) as [Hin Hlb]. split.
    + destruct Hin as [E|Hin].
      * rewrite <- E. unfold Rmin. destruct (Rle_dec x y); simpl; auto.
      * simpl; auto.
    + assert (Hm : fold_left Rmin a (Rmin x y) <= Rmin x y) by (apply Hlb; now left).
      intros z [E|[E|Hz]]; subst.
      * pose proof (Rmin_l z y). lra.
      * pose proof (Rmin_r x z). lra.
      * apply Hlb. now right.
Qed.

Lemma np_max_spec (a : list R) : a <> [] -> is_max_of (np_max a) a.
Proof. destruct a as [|x a]; [congruence|]. intros _. apply fold_left_Rmax_spec. Qed.

Lemma np_min_spec (a : list R) : a <> [] -> is_min_of (np_min a) a.
Proof. destruct a as [|x a]; [congruence|]. intros _. apply fold_left_Rmin_spec. Qed.

Lemma Rleb_true (x y : R) : Rleb x y = true <-> x <= y.
Proof. unfold Rleb. destruct (Rle_dec x y); split; auto; discriminate. Qed.

Lemma mask_between_retained (lo hi : R) (a : list R) :
  mask_between lo hi a = retained_spec lo hi a.
Proof.
  unfold mask_between, retained_spec. apply filter_ext. intros x.
  unfold Rleb. destruct (Rle_dec lo x), (Rle_dec x hi); reflexivity.
Qed.

Lemma mask_between_In (lo hi : R) (a : list R) (x : R) :
  In x (mask_between lo hi a) <-> In x a /\ lo <= x <= hi.
Proof.
  unfold mask_between. rewrite filter_In, andb_true_iff, !Rleb_true. tauto.
Qed.

Lemma mask_between_length (lo hi : R) (a : list R) :
  (len (mask_between lo hi a) <= len a)%Z.
Proof.
  unfold len, mask_between. apply inj_le, filter_length_le.
Qed.

(** ** Sorting and order statistics *)

Lemma insert_sorted_perm (x : R) (l : list R) :
  Permutation (x :: l) (insert_sorted x l).
Proof.
  induction l as [|y l IH]; simpl; [reflexivity|].
  destruct (Rleb x y); [reflexivity|].
  rewrite perm_swap. now apply perm_skip.
Qed.

Lemma np_sort_perm (a : list R) : Permutation a (np_sort a).
Proof.
  induction a as [|x a IH]; simpl; [constructor|].
  rewrite <- insert_sorted_perm. now apply perm_skip.
Qed.

Lemma np_sort_length (a : list R) : length (np_sort a) = length a.
Proof. symmetry. apply Permutation_length, np_sort_perm. Qed.

Lemma insert_sorted_sorted (x : R) (l : list R) :
  StronglySorted Rle l -> StronglySorted Rle (insert_sorted x l).
Proof.
  induction 1 as [|y l Hs IH Hall]; simpl.
  - repeat constructor.
  - unfold Rleb. destruct (Rle_dec x y) as [Hxy|Hxy].
    + constructor; [now constructor|].
      constructor; [exact Hxy|].
      eapply Forall_impl; [|exact Hall]. intros z Hz; simpl in *; lra.
    + constructor; [exact IH|].
      apply (Permutation_Forall (insert_sorted_perm x l)).
      constructor; [lra|exact Hall].
Qed.

Lemma np_sort_sorted (a : list R) : StronglySorted Rle (np_sort a).
Proof.
  induction a as [|x a IH]; simpl; [constructor|].
  now apply insert_sorted_sorted.
Qed.

Lemma sorted_nth_mono (s : list R) :
  StronglySorted Rle s ->
  forall j k, (j <= k)%nat -> (k < length s)%nat -> nth j s 0 <= nth k s 0.
Proof.
  induction 1 as [|y s Hs IH Hall]; intros j k Hjk Hk; simpl in Hk; [lia|].
  destruct j as [|j], k as [|k]; simpl; try lia.
  - lra.
  - rewrite Forall_forall in Hall. apply Hall, nth_In. lia.
  - apply IH; lia.
Qed.

Lemma np_sort_nth_In (a : list R) (k : nat) :
  (k < length a)%nat -> In (nth k (np_sort a) 0) a.
Proof.
  intros Hk. apply (Permutation_in _ (Permutation_sym (np_sort_perm a))).
  apply nth_In. now rewrite np_sort_length.
Qed.

(** The integer part of a non-negative real, as a natural number. *)
Lemma Int_part_bounds (r : R) :
  0 <= r ->
  (0 <= Int_part r)%Z /\ IZR (Int_part r) <= r < IZR (Int_part r) + 1.
Proof.
  intros Hr. destruct (base_Int_part r) as [H1 H2]. split; [|lra].
  apply Z.lt_succ_r, lt_IZR. rewrite succ_IZR. lra.
Qed.

Lemma INR_to_nat_Int_part (r : R) :
  0 <= r -> INR (Z.to_nat (Int_part r)) = IZR (Int_part r).
Proof.
  intros Hr. destruct (Int_part_bounds r Hr) as [H0 _].
  rewrite INR_IZR_INZ, Z2Nat.id; auto.
Qed.

Section Percentile.

Variable a : list R.
Variable q : R.
Hypothesis a_nonempty : a <> [].
Hypothesis q_range : 0 <= q <= 100.

Lemma virtual_index_range : 0 <= virtual_index a q <= INR (length a - 1).
Proof.
  unfold virtual_index. pose proof (pos_INR (length a - 1)) as Hm. nra.
Qed.

Lemma gamma_range : 0 <= gamma a q < 1.
Proof.
  destruct virtual_index_range as [H0 _].
  destruct (Int_part_bounds _ H0) as [_ [Hlo Hhi]].
  unfold gamma. lra.
Qed.

Lemma previous_index_bound : (previous_index a q <= length a - 1)%nat.
Proof.
  destruct virtual_index_range as [H0 H1].
  destruct (Int_part_bounds _ H0) as [Hz [Hlo Hhi]].
  apply INR_le. unfold previous_index.
  rewrite INR_to_nat_Int_part by exact H0. lra.
Qed.

Lemma next_index_bound :
  (previous_index a q <= next_index a q /\ next_index a q <= length a - 1)%nat.
Proof. pose proof previous_index_bound. unfold next_index. lia. Qed.

Lemma length_positive : (0 < length a)%nat.
Proof. destruct a; [congruence|simpl; lia]. Qed.

(** The percentile lies between its two neighbouring order statistics. *)
Lemma np_percentile_between :
  nth (previous_index a q) (np_sort a) 0 <= np_percentile a q
  /\ np_percentile a q <= nth (next_index a q) (np_sort a) 0.
Proof.
  destruct next_index_bound as [Hpn Hn].
  pose proof length_positive as Hlen.
  pose proof gamma_range as Hg.
  assert (Hmono : nth (previous_index a q) (np_sort a) 0
                  <= nth (next_index a q) (np_sort a) 0).
  { apply sorted_nth_mono; [apply np_sort_sorted|exact Hpn|].
    rewrite np_sort_length. lia. }
  unfold np_percentile. cbv zeta. nra.
Qed.

End Percentile.

(** With more than twenty samples the upper neighbour of the 2.5th percentile
    sits at or below the lower neighbour of the 97.5th percentile. *)
Lemma trim_indices_ordered (a : list R) :
  (20 < length a)%nat ->
  (previous_index a 2.5 + 1 <= previous_index a 97.5)%nat.
Proof.
  intros Hlen. unfold previous_index, virtual_index.
  assert (Hm : 20 <= INR (length a - 1)).
  { replace 20 with (INR 20) by (simpl; lra). apply le_INR. lia. }
  set (m := INR (length a - 1)) in *.
  assert (H0l : 0 <= m * (2.5 / 100)) by lra.
  assert (H0h : 0 <= m * (97.5 / 100)) by lra.
  destruct (Int_part_bounds _ H0l) as [Hzl [Hl1 Hl2]].
  destruct (Int_part_bounds _ H0h) as [Hzh [Hh1 Hh2]].
  assert (Hz : (Int_part (m * (2.5 / 100)) + 1
                < Int_part (m * (97.5 / 100)) + 1)%Z).
  { apply lt_IZR. rewrite !plus_IZR. lra. }
  lia.
Qed.

(** The percentile chain and a retained sample, for more than twenty
    samples. *)
Lemma trim_interval_inhabited (a : list R) :
  (20 < length a)%nat ->
  np_min a <= np_percentile a 2.5
  /\ np_percentile a 2.5 <= np_percentile a 97.5
  /\ np_percentile a 97.5 <= np_max a
  /\ exists x, In x a /\ np_percentile a 2.5 <= x <= np_percentile a 97.5.
Proof.
  intros Hlen.
  assert (Hne : a <> []) by (destruct a; [simpl in Hlen; lia|congruence]).
  assert (Hql : 0 <= 2.5 <= 100) by lra.
  assert (Hqh : 0 <= 97.5 <= 100) by lra.
  pose proof (np_percentile_between a 2.5 Hne Hql) as [Hl1 Hl2].
  pose proof (np_percentile_between a 97.5 Hne Hqh) as [Hh1 Hh2].
  pose proof (next_index_bound a 2.5 Hql) as [Bl1 Bl2].
  pose proof (next_index_bound a 97.5 Hqh) as [Bh1 Bh2].
  pose proof (previous_index_bound a 97.5 Hqh) as Bh.
  pose proof (trim_indices_ordered a Hlen) as Hord.
  assert (Hnl : (next_index a 2.5 <= previous_index a 97.5)%nat)
    by (unfold next_index; lia).
  set (s := np_sort a) in *.
  assert (Hmid : nth (next_index a 2.5) s 0 <= nth (previous_index a 97.5) s 0).
  { apply sorted_nth_mono; [apply np_sort_sorted|exact Hnl|].
    unfold s. rewrite np_sort_length. lia. }
  destruct (np_min_spec a Hne) as [_ Hmin].
  destruct (np_max_spec a Hne) as [_ Hmax].
  assert (Hin_pl : In (nth (previous_index a 2.5) s 0) a)
    by (apply np_sort_nth_In; lia).
  assert (Hin_nl : In (nth (next_index a 2.5) s 0) a)
    by (apply np_sort_nth_In; lia).
  assert (Hin_nh : In (nth (next_index a 97.5) s 0) a)
    by (apply np_sort_nth_In; lia).
  specialize (Hmin _ Hin_pl). specialize (Hmax _ Hin_nh).
  repeat split; try lra.
  exists (nth (next_index a 2.5) s 0). split; [exact Hin_nl|lra].
Qed.

Lemma trimmed_nonempty (a : list R) :
  (20 < length a)%nat ->
  mask_between (np_percentile a 2.5) (np_percentile a 97.5) a <> [].
Proof.
  intros Hlen.
  destruct (trim_interval_inhabited a Hlen) as (_ & _ & _ & x & Hx & Hb).
  intros E. assert (Hin : In x (mask_between (np_percentile a 2.5)
                                  (np_percentile a 97.5) a))
    by (apply mask_between_In; auto).
  rewrite E in Hin. exact Hin.
Qed.

(** [np.percentile] with [q/100 = num/den] is the linear-interpolation
    percentile written with integer division. *)
Lemma np_percentile_linear (a : list R) (q : R) (num den : nat) :
  (0 < den)%nat -> q / 100 = INR num / INR den ->
  np_percentile a q = linear_percentile_spec a num den.
Proof.
  intros Hden Hq.
  unfold np_percentile, linear_percentile_spec, next_index, previous_index,
    gamma, virtual_index.
  set (m := (length a - 1)%nat). rewrite Hq.
  assert (Hd : 0 < INR den) by (apply lt_0_INR; exact Hden).
  pose proof (Nat.div_mod_eq (m * num) den) as Hdm.
  pose proof (Nat.mod_upper_bound (m * num) den ltac:(lia)) as Hr.
  set (k := ((m * num) / den)%nat) in *.
  set (r := ((m * num) mod den)%nat) in *.
  assert (Hvi : INR m * (INR num / INR den) = INR k + INR r / INR den).
  { replace (INR m * (INR num / INR den)) with (INR (m * num) / INR den)
      by (rewrite mult_INR; field; lra).
    rewrite Hdm, plus_INR, mult_INR. field. lra. }
  assert (Hw : 0 <= INR r / INR den < 1).
  { apply lt_INR in Hr. pose proof (pos_INR r) as Hr0. split.
    - apply Rmult_le_pos; [exact Hr0|]. left. now apply Rinv_0_lt_compat.
    - apply Rmult_lt_reg_r with (INR den); [exact Hd|].
      unfold Rdiv. rewrite Rmult_assoc, Rinv_l by lra. lra. }
  assert (Hip : Int_part (INR m * (INR num / INR den)) = Z.of_nat k).
  { symmetry. apply Int_part_spec. rewrite Hvi, <- INR_IZR_INZ. lra. }
  rewrite Hip, Nat2Z.id, <- INR_IZR_INZ, Hvi.
  set (w := INR r / INR den) in *.
  ring.
Qed.

Lemma np_percentile_2_5 (a : list R) :
  np_percentile a 2.5 = linear_percentile_spec a 1 40.
Proof. apply np_percentile_linear; [lia|]. simpl. lra. Qed.

Lemma np_percentile_97_5 (a : list R) :
  np_percentile a 97.5 = linear_percentile_spec a 39 40.
Proof.
  apply np_percentile_linear; [lia|].
  rewrite !INR_IZR_INZ. simpl. lra.
Qed.

(** ** The statistics engine *)

(** Unfolding of the engine on a non-empty series that is trimmed. *)
Lemma calculate_statistics_trimmed (series : list cell) :
  (20 < len (dropna series))%Z ->
  let x := dropna series in
  let kept := mask_between (np_percentile x 2.5) (np_percentile x 97.5) x in
  calculate_statistics series true =
  {| RMS := sqrt (np_mean (squares x)); Mean := np_mean x; Std := np_std x;
     Max := np_max x; Min := np_min x; Count := len x;
     RMS_filtered := sqrt (np_mean (squares kept));
     Mean_filtered := np_mean kept;
     Std_filtered := np_std kept;
     Max_filtered := np_max kept;
     Min_filtered := np_min kept;
     Count_filtered := len kept;
     Outliers_removed := (len x - len kept)%Z |}.
Proof.
  intros H x kept. subst kept x.
  unfold calculate_statistics, calculate_statistics_with.
  destruct (dropna series) as [|y ys] eqn:E.
  - unfold len in H; simpl in H; lia.
  - apply Z.ltb_lt in H. rewrite H. reflexivity.
Qed.

(** Unfolding of the engine on a non-empty series that is not trimmed. *)
Lemma calculate_statistics_untrimmed (series : list cell) (flag : bool) :
  dropna series <> [] ->
  flag && (20 <? len (dropna series))%Z = false ->
  let x := dropna series in
  calculate_statistics series flag =
  {| RMS := sqrt (np_mean (squares x)); Mean := np_mean x; Std := np_std x;
     Max := np_max x; Min := np_min x; Count := len x;
     RMS_filtered := sqrt (np_mean (squares x));
     Mean_filtered := np_mean x;
     Std_filtered := np_std x;
     Max_filtered := np_max x;
     Min_filtered := np_min x;
     Count_filtered := len x;
     Outliers_removed := 0 |}.
Proof.
  intros Hne H x. subst x.
  unfold calculate_statistics, calculate_statistics_with.
  destruct (dropna series) as [|y ys] eqn:E; [congruence|].
  rewrite H. reflexivity.
Qed.

(** The raw half of the bundle does not depend on the trimming branch. *)
Lemma calculate_statistics_raw (series : list cell) (flag : bool) :
  dropna series <> [] ->
  let x := dropna series in
  let b := calculate_statistics series flag in
  RMS b = sqrt (np_mean (squares x)) /\ Mean b = np_mean x
  /\ Std b = np_std x /\ Max b = np_max x /\ Min b = np_min x
  /\ Count b = len x.
Proof.
  intros Hne x b. subst b x.
  unfold calculate_statistics, calculate_statistics_with.
  destruct (dropna series) as [|y ys] eqn:E; [congruence|].
  destruct (flag && (20 <? len (y :: ys))%Z); cbn; repeat split; reflexivity.
Qed.

(** C1: with more than twenty samples the engine computes the 2.5th and
    97.5th linear-interpolation percentiles of the raw series, retains
    exactly the samples in the closed interval between them, computes the
    filtered statistics over the retained samples and reports
    [Outliers_removed = Count - Count_filtered], which is non-negative. *)
Theorem C1_trimming (series : list cell) :
  (20 < len (dropna series))%Z ->
  let x := dropna series in
  let b := calculate_statistics series true in
  let lo := linear_percentile_spec x 1 40 in
  let hi := linear_percentile_spec x 39 40 in
  let kept := retained_spec lo hi x in
  (forall xi, In xi kept <-> In xi x /\ lo <= xi <= hi)
  /\ RMS_filtered b = rms_spec kept
  /\ Mean_filtered b = mean_spec kept
  /\ Std_filtered b = population_std_spec kept
  /\ is_max_of (Max_filtered b) kept
  /\ is_min_of (Min_filtered b) kept
  /\ Count_filtered b = len kept
  /\ Outliers_removed b = (Count b - Count_filtered b)%Z
  /\ (Count_filtered b <= Count b)%Z
  /\ (0 <= Outliers_removed b)%Z.
Proof.
  intros H x b lo hi kept.
  assert (Hlen : (20 < length x)%nat) by (unfold len in H; subst x; lia).
  pose proof (trimmed_nonempty x Hlen) as Hne.
  pose proof (mask_between_length (np_percentile x 2.5)
                (np_percentile x 97.5) x) as Hle.
  assert (Hb : b = _) by (apply calculate_statistics_trimmed; exact H).
  cbv zeta in Hb. fold x in Hb.
  assert (Hk : mask_between (np_percentile x 2.5) (np_percentile x 97.5) x
               = kept).
  { subst kept lo hi.
    now rewrite mask_between_retained, np_percentile_2_5, np_percentile_97_5. }
  rewrite Hk in Hb, Hne, Hle. rewrite Hb; cbn.
  split.
  { intros xi. rewrite <- Hk, mask_between_In.
    subst lo hi. now rewrite np_percentile_2_5, np_percentile_97_5. }
  repeat split.
  - apply rms_is_spec.
  - apply np_mean_spec.
  - apply np_std_spec.
  - apply (np_max_spec kept Hne).
  - apply (np_max_spec kept Hne).
  - apply (np_min_spec kept Hne).
  - apply (np_min_spec kept Hne).
  - exact Hle.
  - lia.
Qed.

Lemma C1_trimming_witness :
  (20 < len (dropna (repeat (Some 1%R) 21)))%Z
  /\ (0 <= Outliers_removed (calculate_statistics (repeat (Some 1%R) 21) true))%Z.
Proof.
  assert (H : (20 < len (dropna (repeat (Some 1%R) 21)))%Z)
    by (unfold len; simpl; lia).
  split; [exact H|].
  destruct (C1_trimming (repeat (Some 1%R) 21) H)
    as (_ & _ & _ & _ & _ & _ & _ & _ & _ & HO).
  exact HO.
Defined.

(** C2: a non-empty series of at most twenty samples is not trimmed: every
    filtered field equals the raw field and no outlier is reported. *)
Theorem C2_no_trimming (series : list cell) (remove_outliers : bool) :
  dropna series <> [] ->
  (len (dropna series) <= 20)%Z ->
  let b := calculate_statistics series remove_outliers in
  RMS_filtered b = RMS b
  /\ Mean_filtered b = Mean b
  /\ Std_filtered b = Std b
  /\ Max_filtered b = Max b
  /\ Min_filtered b = Min b
  /\ Count_filtered b = Count b
  /\ Outliers_removed b = 0%Z.
Proof.
  intros Hne Hle b. subst b.
  rewrite calculate_statistics_untrimmed; [cbn; repeat split; reflexivity|exact Hne|].
  apply andb_false_iff. right. apply Z.ltb_ge. exact Hle.
Qed.

Lemma C2_no_trimming_witness :
  Outliers_removed (calculate_statistics [Some 3; None; Some 4] true) = 0%Z.
Proof.
  apply (C2_no_trimming [Some 3; None; Some 4] true).
  - simpl. discriminate.
  - unfold len. simpl. lia.
Defined.

(** C3: on a non-empty series of [N] samples the raw bundle is
    [rms = sqrt((1/N) sum x_i^2) >= 0], [mean = (1/N) sum x_i], the
    population standard deviation (divisor [N]), the greatest and the least
    sample, and [count = N]; [calculate_rms] computes the same rms, and
    answers 0 on the empty series. *)
Theorem C3_raw_statistics (series : list cell) (remove_outliers : bool) :
  let x := dropna series in
  let b := calculate_statistics series remove_outliers in
  (x <> [] ->
     RMS b = rms_spec x /\ 0 <= RMS b
     /\ Mean b = mean_spec x
     /\ Std b = population_std_spec x
     /\ is_max_of (Max b) x
     /\ is_min_of (Min b) x
     /\ Count b = Z.of_nat (length x)
     /\ Improved.calculate_rms series = rms_spec x
     /\ 0 <= Improved.calculate_rms series
     /\ Improved.Std (Improved.calculate_statistics series)
        = population_std_spec x)
  /\ (x = [] -> Improved.calculate_rms series = 0).
Proof.
  intros x b. split.
  - intros Hne.
    destruct (calculate_statistics_raw series remove_outliers Hne)
      as (HR & HM & HS & HMax & HMin & HC).
    fold x in HR, HM, HS, HMax, HMin, HC. fold b in HR, HM, HS, HMax, HMin, HC.
    rewrite HR, HM, HS, HMax, HMin, HC.
    assert (Hrms : Improved.calculate_rms series = rms_spec x).
    { unfold Improved.calculate_rms. fold x.
      destruct x; [congruence|apply rms_is_spec]. }
    repeat split.
    + apply rms_is_spec.
    + apply sqrt_pos.
    + apply np_mean_spec.
    + apply np_std_spec.
    + apply (np_max_spec x Hne).
    + apply (np_max_spec x Hne).
    + apply (np_min_spec x Hne).
    + apply (np_min_spec x Hne).
    + exact Hrms.
    + rewrite Hrms. apply sqrt_pos.
    + unfold Improved.calculate_statistics. fold x.
      destruct x; [congruence|apply np_std_spec].
  - intros E. unfold Improved.calculate_rms. fold x. now rewrite E.
Qed.

Lemma C3_raw_statistics_witness :
  Count (calculate_statistics [Some 3; Some 4] true) = 2%Z.
Proof.
  assert (Hne : dropna [Some 3; Some 4] <> []) by (simpl; discriminate).
  destruct (C3_raw_statistics [Some 3; Some 4] true) as [Hraw _].
  destruct (Hraw Hne) as (_ & _ & _ & _ & _ & _ & HC & _).
  exact HC.
Defined.

(** The scenario of the specification: the series [3, 4]. *)
Example raw_statistics_3_4 :
  let b := calculate_statistics [Some 3; Some 4] true in
  RMS b = sqrt (25 / 2) /\ Mean b = 7 / 2 /\ Std b = 1 / 2
  /\ Max b = 4 /\ Min b = 3 /\ Count b = 2%Z
  /\ RMS_filtered b = RMS b /\ Std_filtered b = Std b
  /\ Outliers_removed b = 0%Z
  /\ sample_std_spec [3; 4] <> Std b.
Proof.
  cbv zeta.
  assert (HS : np_std [3; 4] = 1 / 2).
  { unfold np_std, np_mean, np_sum. simpl.
    match goal with
    | |- sqrt ?e = _ => replace e with (1 / 2 * (1 / 2)) by lra
    end.
    rewrite sqrt_square; lra. }
  unfold calculate_statistics, calculate_statistics_with. cbn -[np_std sqrt].
  rewrite HS. repeat split.
  - f_equal. unfold np_mean, np_sum. simpl. lra.
  - unfold np_mean, np_sum. simpl. lra.
  - unfold Rmax. destruct (Rle_dec 3 4); lra.
  - unfold Rmin. destruct (Rle_dec 3 4); lra.
  - unfold sample_std_spec, mean_spec. simpl. intros E.
    match type of E with
    | sqrt ?e = _ => replace e with (1 / 2) in E by lra
    end.
    assert (H2 : sqrt (1 / 2) * sqrt (1 / 2) = 1 / 2) by (apply sqrt_sqrt; lra).
    rewrite E in H2. lra.
Qed.

(** C6: a series with no numeric sample yields the all-zero bundle, whatever
    the percentile function is (it is never consulted), and the raw-only
    engine of [emg_analysis_improved.py] yields its all-zero bundle too. *)
Theorem C6_empty_series
    (percentile : list R -> R -> R) (series : list cell)
    (remove_outliers : bool) :
  dropna series = [] ->
  calculate_statistics_with percentile series remove_outliers = zero_bundle
  /\ calculate_statistics series remove_outliers = zero_bundle
  /\ Improved.calculate_statistics series
     = {| Improved.RMS := 0; Improved.Mean := 0; Improved.Std := 0;
          Improved.Max := 0; Improved.Min := 0; Improved.Count := 0 |}.
Proof.
  intros E.
  unfold calculate_statistics, calculate_statistics_with,
    Improved.calculate_statistics.
  rewrite E. repeat split; reflexivity.
Qed.

Lemma C6_empty_series_witness :
  calculate_statistics [None; None] true = zero_bundle.
Proof.
  apply (C6_empty_series np_percentile [None; None] true). reflexivity.
Defined.

(** In exact arithmetic: with more than twenty samples the percentiles are
    ordered [min <= P2.5 <= P97.5 <= max], some sample lies between them, so
    the retained series is non-empty: [Count_filtered >= 1] and the divisor
    of the filtered mean, rms and standard deviation is not zero. *)
Theorem exact_trimmed_series_nonempty (series : list cell) :
  (20 < len (dropna series))%Z ->
  let x := dropna series in
  let lower_percentile := np_percentile x 2.5 in
  let upper_percentile := np_percentile x 97.5 in
  let filtered_series := mask_between lower_percentile upper_percentile x in
  let b := calculate_statistics series true in
  np_min x <= lower_percentile
  /\ lower_percentile <= upper_percentile
  /\ upper_percentile <= np_max x
  /\ filtered_series <> []
  /\ Count_filtered b = len filtered_series
  /\ (1 <= Count_filtered b)%Z
  /\ INR (length filtered_series) <> 0.
Proof.
  intros H x lo hi kept b.
  assert (Hlen : (20 < length x)%nat) by (unfold len in H; subst x; lia).
  destruct (trim_interval_inhabited x Hlen) as (H1 & H2 & H3 & _).
  pose proof (trimmed_nonempty x Hlen) as Hne. fold lo hi kept in Hne.
  assert (Hb : b = _) by (apply calculate_statistics_trimmed; exact H).
  cbv zeta in Hb. fold x lo hi kept in Hb.
  assert (Hpos : (0 < length kept)%nat).
  { destruct kept; [congruence|simpl; lia]. }
  rewrite Hb; cbn. repeat split; auto.
  - unfold len. lia.
  - apply not_0_INR. lia.
Qed.

Lemma exact_trimmed_series_nonempty_witness :
  (1 <= Count_filtered (calculate_statistics (repeat (Some 2%R) 25) true))%Z.
Proof.
  assert (H : (20 < len (dropna (repeat (Some 2%R) 25)))%Z)
    by (unfold len; simpl; lia).
  destruct (exact_trimmed_series_nonempty (repeat (Some 2%R) 25) H)
    as (_ & _ & _ & _ & _ & HC & _).
  exact HC.
Defined.

(** C9 fails of the program: in binary64 trimming can retain nothing.  With
    two cells [-1e308] and forty-nine cells [1e308] the 2.5th percentile
    interpolates between [-1e308] and [1e308]: their difference overflows,
    the threshold is [infinity], and the mask keeps none of the fifty-one
    samples.  With twenty cells [1.0] and one cell [inf] the 97.5th
    percentile is [inf - inf * 0.5], which is NaN, and again nothing is
    kept.  In both cases trimming is applied, [Count_filtered] is 0 and
    every sample counts as an outlier. *)
Theorem C9_retained_series_empty_in_binary64 :
  ((20 <? Z.of_nat (length Binary64.overflow_series))%Z = true
   /\ Binary64.lower_percentile Binary64.overflow_series
      = PrimFloat.infinity
   /\ Binary64.filtered_series Binary64.overflow_series = []
   /\ Binary64.Count_filtered Binary64.overflow_series true = 0%Z
   /\ Binary64.Outliers_removed Binary64.overflow_series true = 51%Z)
  /\ ((20 <? Z.of_nat (length Binary64.infinite_cell_series))%Z = true
      /\ PrimFloat.is_nan
           (Binary64.upper_percentile Binary64.infinite_cell_series)
         = true
      /\ Binary64.filtered_series Binary64.infinite_cell_series = []
      /\ Binary64.Count_filtered Binary64.infinite_cell_series true = 0%Z
      /\ Binary64.Outliers_removed Binary64.infinite_cell_series true
         = 21%Z).
Proof. vm_compute. repeat split; reflexivity. Qed.

(** ** The Q/B ratio cell *)

Lemma js_neq_zero_spec (x : R) :
  (x = 0 -> js_neq_zero x = false) /\ (x <> 0 -> js_neq_zero x = true).
Proof.
  unfold js_neq_zero. destruct (Req_dec_T x 0); split; intros; congruence.
Qed.

(** [toFixed(3)] is within half a thousandth of its argument. *)
Lemma toFixed3_close (v : R) :
  Rabs (IZR (toFixed3 v) / 1000 - v) <= 1 / 2000.
Proof.
  unfold toFixed3. destruct (Rlt_dec v 0) as [Hneg|Hpos].
  - destruct (base_Int_part (- v * 1000 + / 2)) as [H1 H2].
    rewrite opp_IZR. apply Rabs_le. lra.
  - destruct (base_Int_part (v * 1000 + / 2)) as [H1 H2].
    apply Rabs_le. lra.
Qed.

Lemma ratio_guard (data : result_row) :
  (bicepRMS data = 0 -> ratio data = NA)
  /\ (bicepRMS data <> 0 ->
      ratio data = Fixed3 (toFixed3 (quadRMS data / bicepRMS data))).
Proof.
  unfold ratio. destruct (js_neq_zero_spec (bicepRMS data)) as [H0 H1].
  split; intros H.
  - now rewrite (H0 H).
  - now rewrite (H1 H).
Qed.

(** C7: in the row of a source the Q/B cell is ['N/A'] when the filtered
    biceps RMS is zero; otherwise it shows the filtered quadriceps RMS
    divided by the filtered biceps RMS, printed with three decimals. *)
Theorem C7_ratio_not_applicable (quad_col bicep_col : list cell) :
  let quad := RMS_filtered (calculate_statistics quad_col true) in
  let bicep := RMS_filtered (calculate_statistics bicep_col true) in
  let shown := ratio (analysis_row quad_col bicep_col) in
  (bicep = 0 -> shown = NA)
  /\ (bicep <> 0 ->
      shown = Fixed3 (toFixed3 (quad / bicep))
      /\ Rabs (IZR (toFixed3 (quad / bicep)) / 1000 - quad / bicep)
         <= 1 / 2000).
Proof.
  intros quad bicep shown.
  destruct (ratio_guard (analysis_row quad_col bicep_col)) as [H0 H1].
  split; intros H.
  - apply H0. exact H.
  - split; [apply H1; exact H|apply toFixed3_close].
Qed.

Lemma C7_ratio_not_applicable_witness :
  ratio (analysis_row [Some 3; Some 4] [None]) = NA.
Proof.
  apply (C7_ratio_not_applicable [Some 3; Some 4] [None]). reflexivity.
Defined.

(** ** Slices and the partition into windows *)

Lemma slice_length {A : Type} (l : list A) (b e : nat) :
  length (slice l b e) = Nat.min (e - b) (length l - b).
Proof. unfold slice. now rewrite length_firstn, length_skipn. Qed.




Lemma slice_0 {A : Type} (l : list A) (e : nat) : slice l 0 e = firstn e l.
Proof. unfold slice. simpl. now rewrite Nat.sub_0_r. Qed.

Lemma ceil_div_lt (n w j : nat) :
  (0 < w)%nat -> ((j < ceil_div n w)%nat <-> (j * w < n)%nat).
Proof.
  intros Hw. unfold ceil_div. split; intros H.
  - destruct (Nat.lt_ge_cases (j * w) n) as [Hlt|Hge]; [exact Hlt|].
    exfalso. assert (Hd : ((n + w - 1) / w < j + 1)%nat).
    { apply Nat.Div0.div_lt_upper_bound; nia. }
    lia.
  - apply Nat.lt_le_trans with (S j - 0)%nat; [lia|].
    rewrite Nat.sub_0_r. apply Nat.div_le_lower_bound; nia.
Qed.

Lemma ceil_div_covers (n w : nat) :
  (0 < w)%nat -> (n <= ceil_div n w * w)%nat.
Proof.
  intros Hw. destruct (Nat.le_gt_cases n (ceil_div n w * w)) as [H|H]; [exact H|].
  apply (ceil_div_lt n w (ceil_div n w) Hw) in H. lia.
Qed.

Lemma ceil_div_zero (w : nat) : ceil_div 0 w = 0%nat.
Proof.
  unfold ceil_div. destruct w as [|w]; [reflexivity|].
  apply Nat.div_small. lia.
Qed.

Lemma nth_window_length (data : list R) (w k : nat) :
  length (nth_window data w k) = Nat.min w (length data - k * w).
Proof.
  unfold nth_window. rewrite slice_length. f_equal. lia.
Qed.


Lemma partition_windows_length (data : list R) (w : nat) :
  length (partition_windows data w) = ceil_div (length data) w.
Proof. unfold partition_windows. now rewrite length_map, length_seq. Qed.



(** ** The common loop *)

Lemma window_body_emits (reduce : list R -> R) (data : list R)
    (samplingRate w : nat) (st : trace_state) :
  (0 < w)%nat -> (pos st < length data)%nat ->
  window_body reduce data samplingRate w st
  = {| pos := pos st + w;
       values := values st ++ [reduce (slice data (pos st) (pos st + w))];
       times := times st ++ [INR (pos st) / INR samplingRate] |}.
Proof.
  intros Hw Hp. unfold window_body.
  assert (H : (0 <? length (slice data (pos st) (pos st + w)))%nat = true).
  { apply Nat.ltb_lt. rewrite slice_length. lia. }
  now rewrite H.
Qed.

Lemma window_body_zero_stride (reduce : list R -> R) (data : list R)
    (samplingRate : nat) (st : trace_state) :
  window_body reduce data samplingRate 0 st
  = {| pos := pos st + 0; values := values st; times := times st |}.
Proof.
  unfold window_body.
  assert (H : (0 <? length (slice data (pos st) (pos st + 0)))%nat = false).
  { apply Nat.ltb_ge. rewrite slice_length. lia. }
  now rewrite H.
Qed.

(** A positive stride: from position [j * w], with [d] windows left, the
    loop needs [d] executions of the body and one more evaluation of the
    condition, and appends the [d] remaining windows. *)
Lemma window_loop_run (reduce : list R -> R) (data : list R)
    (samplingRate w : nat) :
  (0 < w)%nat ->
  forall d j st fuel,
    pos st = (j * w)%nat ->
    (j + d)%nat = ceil_div (length data) w ->
    window_loop reduce fuel data samplingRate w st
    = if (d <? fuel)%nat
      then Some {| pos := (j + d) * w;
                   values := values st
                     ++ map (fun k => reduce (nth_window data w k)) (seq j d);
                   times := times st
                     ++ map (leading_edge samplingRate w) (seq j d) |}
      else None.
Proof.
  intros Hw. induction d as [|d IH]; intros j st fuel Hp Hjd.
  - destruct fuel as [|fuel]; simpl; [reflexivity|].
    assert (Hc : (pos st <? length data)%nat = false).
    { apply Nat.ltb_ge. rewrite Hp.
      destruct (Nat.le_gt_cases (length data) (j * w)) as [H|H]; [exact H|].
      apply (ceil_div_lt _ w j Hw) in H. lia. }
    rewrite Hc, Nat.add_0_r, !app_nil_r, <- Hp. now destruct st.
  - destruct fuel as [|fuel]; [reflexivity|].
    assert (Hlt : (pos st < length data)%nat).
    { rewrite Hp. apply (ceil_div_lt _ w j Hw). lia. }
    cbn [window_loop]. rewrite (proj2 (Nat.ltb_lt _ _) Hlt).
    rewrite window_body_emits by assumption.
    rewrite (IH (S j)); [|cbn; lia|lia].
    replace (S d <? S fuel)%nat with (d <? fuel)%nat by reflexivity.
    destruct (d <? fuel)%nat; [|reflexivity].
    cbn [pos values times]. f_equal. f_equal.
    + lia.
    + rewrite <- app_assoc. cbn [seq map app]. unfold nth_window.
      now rewrite Hp.
    + rewrite <- app_assoc. cbn [seq map app]. unfold leading_edge.
      now rewrite Hp.
Qed.

(** A zero stride: the position never moves, so a loop that starts inside
    the data never ends. *)
Lemma window_loop_stuck (reduce : list R -> R) (data : list R)
    (samplingRate : nat) :
  forall fuel st,
    (pos st < length data)%nat ->
    window_loop reduce fuel data samplingRate 0 st = None.
Proof.
  induction fuel as [|fuel IH]; intros st Hp; [reflexivity|].
  cbn [window_loop]. rewrite (proj2 (Nat.ltb_lt _ _) Hp).
  rewrite window_body_zero_stride. apply IH. cbn. lia.
Qed.

(** The run from the initial state, all cases together. *)
Lemma window_loop_from_start (reduce : list R -> R) (data : list R)
    (samplingRate w fuel : nat) :
  window_loop reduce fuel data samplingRate w
    {| pos := 0; values := []; times := [] |}
  = if ((0 <? w)%nat || (length data =? 0)%nat)
       && (ceil_div (length data) w <? fuel)%nat
    then Some {| pos := ceil_div (length data) w * w;
                 values := map reduce (partition_windows data w);
                 times := map (leading_edge samplingRate w)
                            (seq 0 (ceil_div (length data) w)) |}
    else None.
Proof.
  destruct (Nat.ltb_spec 0 w) as [Hw|Hw].
  - rewrite (window_loop_run reduce data samplingRate w Hw
               (ceil_div (length data) w) 0); [|reflexivity|reflexivity].
    cbn [orb andb pos values times app]. unfold partition_windows.
    now rewrite map_map.
  - assert (w = 0)%nat by lia. subst w.
    destruct (Nat.eqb_spec (length data) 0) as [He|He]; cbn [orb andb].
    + unfold partition_windows. rewrite He, ceil_div_zero.
      destruct fuel as [|fuel]; [reflexivity|].
      cbn [window_loop pos]. rewrite He. reflexivity.
    + apply window_loop_stuck. cbn. lia.
Qed.

Lemma window_invariant_start (reduce : list R -> R) (data : list R)
    (samplingRate w : nat) :
  window_invariant reduce data samplingRate w
    {| pos := 0; values := []; times := [] |}.
Proof.
  unfold window_invariant; cbn.
  repeat split; try reflexivity; try lia; congruence.
Qed.

Lemma window_invariant_body (reduce : list R -> R) (data : list R)
    (samplingRate w : nat) (st : trace_state) :
  (pos st < length data)%nat ->
  window_invariant reduce data samplingRate w st ->
  window_invariant reduce data samplingRate w
    (window_body reduce data samplingRate w st).
Proof.
  intros Hc (Hp & Hl & Hw0 & Hj).
  destruct (Nat.eq_dec w 0) as [Hw|Hw].
  - subst w. rewrite window_body_zero_stride.
    unfold window_invariant; cbn [pos values times].
    repeat split; try (apply Hj; assumption); try lia. exact Hw0.
  - rewrite window_body_emits by lia.
    unfold window_invariant; cbn [pos values times].
    rewrite !length_app; cbn [length].
    split; [lia|]. split; [lia|]. split; [lia|].
    intros j Hlt.
    destruct (Nat.eq_dec j (length (times st))) as [E|E].
    + subst j. rewrite <- Hp.
      rewrite app_nth2 by lia. rewrite Nat.sub_diag.
      rewrite <- Hl at 1. rewrite app_nth2 by lia. rewrite Nat.sub_diag.
      cbn [nth]. repeat split; auto.
    + assert (Hj' : (j < length (times st))%nat) by lia.
      rewrite !app_nth1 by lia. apply Hj. exact Hj'.
Qed.

(** ** The two loops as instances of the common loop *)

Lemma integrated_body_abs (data : list R) (samplingRate w : nat)
    (st : IntegratedChart.state) :
  integrated_abs (IntegratedChart.body data samplingRate w st)
  = window_body window_avg data samplingRate w (integrated_abs st).
Proof.
  unfold IntegratedChart.body, window_body, integrated_abs.
  cbn [pos values times].
  destruct (0 <? length _)%nat; reflexivity.
Qed.

Lemma rms_body_abs (data : list R) (samplingRate w : nat)
    (st : RMSChart.state) :
  rms_abs (RMSChart.body data samplingRate w st)
  = window_body window_rms data samplingRate w (rms_abs st).
Proof.
  unfold RMSChart.body, window_body, rms_abs.
  cbn [pos values times].
  destruct (0 <? length _)%nat; reflexivity.
Qed.

Lemma integrated_loop_abs (fuel : nat) (data : list R) (samplingRate w : nat) :
  forall st,
    option_map integrated_abs (IntegratedChart.loop fuel data samplingRate w st)
    = window_loop window_avg fuel data samplingRate w (integrated_abs st).
Proof.
  induction fuel as [|fuel IH]; intros st; [reflexivity|].
  cbn [IntegratedChart.loop window_loop]. unfold integrated_abs at 2.
  cbn [pos]. destruct (IntegratedChart.i st <? length data)%nat.
  - rewrite IH, integrated_body_abs. reflexivity.
  - reflexivity.
Qed.

Lemma rms_loop_abs (fuel : nat) (data : list R) (samplingRate w : nat) :
  forall st,
    option_map rms_abs (RMSChart.loop fuel data samplingRate w st)
    = window_loop window_rms fuel data samplingRate w (rms_abs st).
Proof.
  induction fuel as [|fuel IH]; intros st; [reflexivity|].
  cbn [RMSChart.loop window_loop]. unfold rms_abs at 2.
  cbn [pos]. destruct (RMSChart.i st <? length data)%nat.
  - rewrite IH, rms_body_abs. reflexivity.
  - reflexivity.
Qed.

(** Closed form of the trace of [updateIntegratedChart]. *)
Lemma integrated_resample_cases (fuel : nat) (yData : list R)
    (sampling_rate : option nat) :
  let samplingRate := sampling_rate_or_default sampling_rate in
  let data := limitedData yData samplingRate in
  let w := windowSize samplingRate in
  IntegratedChart.resample fuel yData sampling_rate
  = if ((0 <? w)%nat || (length data =? 0)%nat)
       && (ceil_div (length data) w <? fuel)%nat
    then Some (map (leading_edge samplingRate w)
                 (seq 0 (ceil_div (length data) w)),
               map window_avg (partition_windows data w))
    else None.
Proof.
  intros samplingRate data w. unfold IntegratedChart.resample.
  fold samplingRate. fold data. fold w.
  pose proof (integrated_loop_abs fuel data samplingRate w
                IntegratedChart.init) as H.
  unfold integrated_abs at 2 in H. cbn [IntegratedChart.init
    IntegratedChart.i IntegratedChart.sampledY IntegratedChart.timeData] in H.
  rewrite window_loop_from_start in H.
  destruct (IntegratedChart.loop fuel data samplingRate w IntegratedChart.init)
    as [st|]; destruct (_ && _); cbn in H; try discriminate; [|reflexivity].
  injection H as _ Hv Ht. now rewrite Hv, Ht.
Qed.

(** Closed form of the trace of [updateRMSChart]. *)
Lemma rms_resample_cases (fuel : nat) (yData : list R)
    (sampling_rate : option nat) :
  let samplingRate := sampling_rate_or_default sampling_rate in
  let data := limitedData yData samplingRate in
  let w := windowSize samplingRate in
  RMSChart.resample fuel yData sampling_rate
  = if ((0 <? w)%nat || (length data =? 0)%nat)
       && (ceil_div (length data) w <? fuel)%nat
    then Some (map (leading_edge samplingRate w)
                 (seq 0 (ceil_div (length data) w)),
               map window_rms (partition_windows data w))
    else None.
Proof.
  intros samplingRate data w. unfold RMSChart.resample.
  fold samplingRate. fold data. fold w.
  pose proof (rms_loop_abs fuel data samplingRate w RMSChart.init) as H.
  unfold rms_abs at 2 in H. cbn [RMSChart.init
    RMSChart.i RMSChart.rmsValues RMSChart.timeData] in H.
  rewrite window_loop_from_start in H.
  destruct (RMSChart.loop fuel data samplingRate w RMSChart.init)
    as [st|]; destruct (_ && _); cbn in H; try discriminate; [|reflexivity].
  injection H as _ Hv Ht. now rewrite Hv, Ht.
Qed.

Lemma integrated_reachable_invariant (data : list R) (samplingRate w : nat)
    (st : IntegratedChart.state) :
  IntegratedChart.reachable data samplingRate w st ->
  window_invariant window_avg data samplingRate w (integrated_abs st).
Proof.
  induction 1 as [|st Hr IH Hc].
  - apply window_invariant_start.
  - rewrite integrated_body_abs. apply window_invariant_body; assumption.
Qed.

Lemma rms_reachable_invariant (data : list R) (samplingRate w : nat)
    (st : RMSChart.state) :
  RMSChart.reachable data samplingRate w st ->
  window_invariant window_rms data samplingRate w (rms_abs st).
Proof.
  induction 1 as [|st Hr IH Hc].
  - apply window_invariant_start.
  - rewrite rms_body_abs. apply window_invariant_body; assumption.
Qed.

(** What the loop returns is a state it passed through. *)
Lemma integrated_loop_reachable (data : list R) (samplingRate w : nat) :
  forall fuel st st',
    IntegratedChart.reachable data samplingRate w st ->
    IntegratedChart.loop fuel data samplingRate w st = Some st' ->
    IntegratedChart.reachable data samplingRate w st'.
Proof.
  induction fuel as [|fuel IH]; intros st st' Hr Hl; [discriminate|].
  cbn [IntegratedChart.loop] in Hl.
  destruct (Nat.ltb_spec (IntegratedChart.i st) (length data)) as [Hc|Hc].
  - eapply IH; [|exact Hl]. now constructor.
  - now injection Hl as <-.
Qed.

Lemma rms_loop_reachable (data : list R) (samplingRate w : nat) :
  forall fuel st st',
    RMSChart.reachable data samplingRate w st ->
    RMSChart.loop fuel data samplingRate w st = Some st' ->
    RMSChart.reachable data samplingRate w st'.
Proof.
  induction fuel as [|fuel IH]; intros st st' Hr Hl; [discriminate|].
  cbn [RMSChart.loop] in Hl.
  destruct (Nat.ltb_spec (RMSChart.i st) (length data)) as [Hc|Hc].
  - eapply IH; [|exact Hl]. now constructor.
  - now injection Hl as <-.
Qed.

(** ** The windowing engine *)

Lemma limitedData_firstn (yData : list R) (samplingRate : nat) :
  limitedData yData samplingRate
  = firstn (Nat.min (length yData) (samplingRate * 10)) yData.
Proof. unfold limitedData, maxSamples. apply slice_0. Qed.

Lemma limitedData_length (yData : list R) (samplingRate : nat) :
  length (limitedData yData samplingRate)
  = Nat.min (length yData) (samplingRate * 10).
Proof. rewrite limitedData_firstn, length_firstn. lia. Qed.

Lemma sampling_rate_or_default_positive (sampling_rate : option nat) :
  (1 <= sampling_rate_or_default sampling_rate)%nat.
Proof. destruct sampling_rate as [[|r]|]; simpl; lia. Qed.

Lemma slice_head (data : list R) (b w : nat) :
  (0 < w)%nat -> nth 0 (slice data b (b + w)) 0 = nth b data 0.
Proof.
  intros Hw. unfold slice. rewrite nth_firstn.
  replace (0 <? b + w - b)%nat with true by (symmetry; apply Nat.ltb_lt; lia).
  rewrite nth_skipn. f_equal. lia.
Qed.

Lemma assigned_rate_cases (t : source_type) :
  let samplingRate :=
    sampling_rate_or_default (Some (assigned_sampling_rate t)) in
  (samplingRate * 10 = 100 * windowSize samplingRate)%nat
  /\ (0 < windowSize samplingRate)%nat
  /\ INR samplingRate = 10 * INR (windowSize samplingRate).
Proof.
  destruct t; cbv zeta.
  - assert (E : sampling_rate_or_default (Some (assigned_sampling_rate Noraxon))
                = (10 * 200)%nat) by reflexivity.
    assert (W : windowSize (10 * 200) = 200%nat) by reflexivity.
    rewrite E, W. repeat split; try lia.
    rewrite mult_INR. simpl. lra.
  - assert (E : sampling_rate_or_default (Some (assigned_sampling_rate Other))
                = (10 * 100)%nat) by reflexivity.
    assert (W : windowSize (10 * 100) = 100%nat) by reflexivity.
    rewrite E, W. repeat split; try lia.
    rewrite mult_INR. simpl. lra.
Qed.

Lemma ceil_div_le (n w c : nat) :
  (0 < w)%nat -> (n <= c * w)%nat -> (ceil_div n w <= c)%nat.
Proof.
  intros Hw Hn.
  destruct (Nat.le_gt_cases (ceil_div n w) c) as [H|H]; [exact H|].
  apply (ceil_div_lt n w c Hw) in H. lia.
Qed.






(** C5: in every state either loop passes through, the [j]-th pushed time
    stamp is [j * windowSize / samplingRate], the [j]-th pushed value is the
    reduction of the window that starts at index [j * windowSize] of the
    truncated series, and that index is the index of the window's first
    sample: a window is stamped with the time of its leading edge. *)
Theorem C5_leading_edge_timestamps (data : list R) (samplingRate w : nat) :
  (forall st, IntegratedChart.reachable data samplingRate w st ->
     length (IntegratedChart.sampledY st)
     = length (IntegratedChart.timeData st)
     /\ forall j, (j < length (IntegratedChart.timeData st))%nat ->
          let firstSampleIndex := (j * w)%nat in
          let window := slice data firstSampleIndex (firstSampleIndex + w) in
          nth j (IntegratedChart.timeData st) 0
          = INR firstSampleIndex / INR samplingRate
          /\ nth j (IntegratedChart.sampledY st) 0 = window_avg window
          /\ (firstSampleIndex < length data)%nat
          /\ nth 0 window 0 = nth firstSampleIndex data 0)
  /\ (forall st, RMSChart.reachable data samplingRate w st ->
     length (RMSChart.rmsValues st) = length (RMSChart.timeData st)
     /\ forall j, (j < length (RMSChart.timeData st))%nat ->
          let firstSampleIndex := (j * w)%nat in
          let window := slice data firstSampleIndex (firstSampleIndex + w) in
          nth j (RMSChart.timeData st) 0
          = INR firstSampleIndex / INR samplingRate
          /\ nth j (RMSChart.rmsValues st) 0 = window_rms window
          /\ (firstSampleIndex < length data)%nat
          /\ nth 0 window 0 = nth firstSampleIndex data 0).
Proof.
  split; intros st Hr.
  - destruct (integrated_reachable_invariant _ _ _ _ Hr) as (_ & Hl & Hw & Hj).
    cbn [integrated_abs pos values times] in Hl, Hw, Hj.
    split; [exact Hl|]. intros j Hlt fsi window.
    destruct (Hj j Hlt) as (Ht & Hv & Hin).
    repeat split; auto.
    apply slice_head. apply Hw. intros E. rewrite E in Hlt. cbn in Hlt. lia.
  - destruct (rms_reachable_invariant _ _ _ _ Hr) as (_ & Hl & Hw & Hj).
    cbn [rms_abs pos values times] in Hl, Hw, Hj.
    split; [exact Hl|]. intros j Hlt fsi window.
    destruct (Hj j Hlt) as (Ht & Hv & Hin).
    repeat split; auto.
    apply slice_head. apply Hw. intros E. rewrite E in Hlt. cbn in Hlt. lia.
Qed.

Lemma C5_leading_edge_timestamps_witness :
  nth 0 (IntegratedChart.timeData
           (IntegratedChart.body [1; 2] 10 1 IntegratedChart.init)) 0
  = INR (0 * 1) / INR 10.
Proof.
  assert (Hr : IntegratedChart.reachable [1; 2] 10 1
                 (IntegratedChart.body [1; 2] 10 1 IntegratedChart.init)).
  { apply IntegratedChart.reach_body.
    - apply IntegratedChart.reach_init.
    - simpl. lia. }
  destruct (C5_leading_edge_timestamps [1; 2] 10 1) as [HI _].
  destruct (HI _ Hr) as [_ Hj].
  assert (Hlt : (0 < length (IntegratedChart.timeData
                   (IntegratedChart.body [1%R; 2%R] 10 1
                      IntegratedChart.init)))%nat)
    by (vm_compute; lia).
  exact (proj1 (Hj 0%nat Hlt)).
Defined.

(** The traces the two charts push carry leading-edge time stamps. *)
Lemma resample_leading_edge (fuel : nat) (yData : list R)
    (sampling_rate : option nat) (ts vs : list R) :
  let samplingRate := sampling_rate_or_default sampling_rate in
  let w := windowSize samplingRate in
  IntegratedChart.resample fuel yData sampling_rate = Some (ts, vs) ->
  forall j, (j < length ts)%nat ->
    nth j ts 0 = INR (j * w) / INR samplingRate
    /\ nth j vs 0
       = window_avg (slice (limitedData yData samplingRate) (j * w) (j * w + w)).
Proof.
  intros samplingRate w H j Hj. unfold IntegratedChart.resample in H.
  fold samplingRate in H. fold w in H.
  destruct (IntegratedChart.loop fuel (limitedData yData samplingRate)
              samplingRate w IntegratedChart.init) as [st|] eqn:E;
    [|discriminate].
  injection H as <- <-.
  assert (Hr : IntegratedChart.reachable (limitedData yData samplingRate)
                 samplingRate w st).
  { eapply integrated_loop_reachable; [|exact E]. constructor. }
  destruct (integrated_reachable_invariant _ _ _ _ Hr) as (_ & _ & _ & Hinv).
  destruct (Hinv j Hj) as (Ht & Hv & _). split; assumption.
Qed.



(** ** Termination of the loops *)

Lemma integrated_body_i (data : list R) (samplingRate w : nat)
    (st : IntegratedChart.state) :
  IntegratedChart.i (IntegratedChart.body data samplingRate w st)
  = (IntegratedChart.i st + w)%nat.
Proof.
  unfold IntegratedChart.body. destruct (0 <? length _)%nat; reflexivity.
Qed.

Lemma rms_body_i (data : list R) (samplingRate w : nat) (st : RMSChart.state) :
  RMSChart.i (RMSChart.body data samplingRate w st) = (RMSChart.i st + w)%nat.
Proof.
  unfold RMSChart.body. destruct (0 <? length _)%nat; reflexivity.
Qed.

Lemma integrated_iter_i (data : list R) (samplingRate w k : nat) :
  IntegratedChart.i
    (Nat.iter k (IntegratedChart.body data samplingRate w) IntegratedChart.init)
  = (k * w)%nat.
Proof.
  induction k as [|k IH]; [reflexivity|].
  rewrite Nat.iter_succ, integrated_body_i, IH. lia.
Qed.

Lemma rms_iter_i (data : list R) (samplingRate w k : nat) :
  RMSChart.i (Nat.iter k (RMSChart.body data samplingRate w) RMSChart.init)
  = (k * w)%nat.
Proof.
  induction k as [|k IH]; [reflexivity|].
  rewrite Nat.iter_succ, rms_body_i, IH. lia.
Qed.

Lemma integrated_loop_finishes (fuel : nat) (data : list R)
    (samplingRate w : nat) :
  IntegratedChart.loop fuel data samplingRate w IntegratedChart.init <> None
  <-> ((0 <? w)%nat || (length data =? 0)%nat)
      && (ceil_div (length data) w <? fuel)%nat = true.
Proof.
  pose proof (integrated_loop_abs fuel data samplingRate w
                IntegratedChart.init) as H.
  unfold integrated_abs at 2 in H. cbn [IntegratedChart.init
    IntegratedChart.i IntegratedChart.sampledY IntegratedChart.timeData] in H.
  rewrite window_loop_from_start in H.
  destruct (IntegratedChart.loop fuel data samplingRate w IntegratedChart.init);
    destruct (_ && _); cbn in H; try discriminate; split; congruence.
Qed.

Lemma rms_loop_finishes (fuel : nat) (data : list R) (samplingRate w : nat) :
  RMSChart.loop fuel data samplingRate w RMSChart.init <> None
  <-> ((0 <? w)%nat || (length data =? 0)%nat)
      && (ceil_div (length data) w <? fuel)%nat = true.
Proof.
  pose proof (rms_loop_abs fuel data samplingRate w RMSChart.init) as H.
  unfold rms_abs at 2 in H. cbn [RMSChart.init
    RMSChart.i RMSChart.rmsValues RMSChart.timeData] in H.
  rewrite window_loop_from_start in H.
  destruct (RMSChart.loop fuel data samplingRate w RMSChart.init);
    destruct (_ && _); cbn in H; try discriminate; split; congruence.
Qed.

(** C10: each execution of the loop body moves the index by the stride
    [floor(samplingRate * 0.1)].  When the stride is at least one -- as for
    the rates 1000 Hz and 2000 Hz the analysis assigns -- the condition
    holds before each of the first [ceil(length / stride)] executions of the
    body and fails after them, so the loop ends after exactly that many
    iterations.  Below 10 Hz the stride is zero, the index does not move,
    and on a non-empty series the loop never ends. *)
Theorem C10_stride_termination (yData : list R) (sampling_rate : option nat) :
  let samplingRate := sampling_rate_or_default sampling_rate in
  let data := limitedData yData samplingRate in
  let w := windowSize samplingRate in
  let iterations := ceil_div (length data) w in
  (forall st,
     IntegratedChart.i (IntegratedChart.body data samplingRate w st)
     = (IntegratedChart.i st + w)%nat)
  /\ (forall st,
     RMSChart.i (RMSChart.body data samplingRate w st)
     = (RMSChart.i st + w)%nat)
  /\ ((1 <= w)%nat ->
      (forall k, (k < iterations)%nat ->
         (IntegratedChart.i
            (Nat.iter k (IntegratedChart.body data samplingRate w)
               IntegratedChart.init) < length data)%nat
         /\ (RMSChart.i
            (Nat.iter k (RMSChart.body data samplingRate w)
               RMSChart.init) < length data)%nat)
      /\ (length data
          <= IntegratedChart.i
               (Nat.iter iterations (IntegratedChart.body data samplingRate w)
                  IntegratedChart.init))%nat
      /\ (length data
          <= RMSChart.i
               (Nat.iter iterations (RMSChart.body data samplingRate w)
                  RMSChart.init))%nat
      /\ (forall fuel,
            IntegratedChart.loop fuel data samplingRate w IntegratedChart.init
            <> None <-> (iterations < fuel)%nat)
      /\ (forall fuel,
            RMSChart.loop fuel data samplingRate w RMSChart.init
            <> None <-> (iterations < fuel)%nat))
  /\ ((samplingRate < 10)%nat ->
      w = 0%nat
      /\ (forall st,
            IntegratedChart.i (IntegratedChart.body data samplingRate w st)
            = IntegratedChart.i st)
      /\ (forall st,
            RMSChart.i (RMSChart.body data samplingRate w st) = RMSChart.i st)
      /\ (yData <> [] ->
          forall fuel,
            IntegratedChart.loop fuel data samplingRate w IntegratedChart.init
            = None
            /\ RMSChart.loop fuel data samplingRate w RMSChart.init = None))
  /\ (forall t,
        (1 <= windowSize (sampling_rate_or_default
                            (Some (assigned_sampling_rate t))))%nat).
Proof.
  intros samplingRate data w iterations.
  split; [intros st; apply integrated_body_i|].
  split; [intros st; apply rms_body_i|].
  split; [|split].
  - intros Hw.
    assert (Hcond : forall fuel,
              ((0 <? w)%nat || (length data =? 0)%nat)
              && (ceil_div (length data) w <? fuel)%nat = true
              <-> (iterations < fuel)%nat).
    { intros fuel. rewrite andb_true_iff, orb_true_iff, !Nat.ltb_lt.
      fold iterations. intuition lia. }
    split; [|split; [|split; [|split]]].
    + intros k Hk. rewrite integrated_iter_i, rms_iter_i.
      apply (ceil_div_lt (length data) w k) in Hk; lia.
    + rewrite integrated_iter_i. apply ceil_div_covers. lia.
    + rewrite rms_iter_i. apply ceil_div_covers. lia.
    + intros fuel. rewrite integrated_loop_finishes. apply Hcond.
    + intros fuel. rewrite rms_loop_finishes. apply Hcond.
  - intros Hsr.
    assert (Hw : w = 0%nat) by (unfold w, windowSize; apply Nat.div_small; lia).
    split; [exact Hw|].
    split; [intros st; rewrite integrated_body_i; lia|].
    split; [intros st; rewrite rms_body_i; lia|].
    intros Hne fuel.
    assert (Hlen : (0 < length data)%nat).
    { unfold data. rewrite limitedData_length.
      pose proof (sampling_rate_or_default_positive sampling_rate) as Hpos.
      fold samplingRate in Hpos.
      destruct yData; [congruence|cbn [length]; lia]. }
    assert (Hc : ((0 <? w)%nat || (length data =? 0)%nat)
                 && (ceil_div (length data) w <? fuel)%nat = false).
    { rewrite Hw. cbn [Nat.ltb Nat.leb orb].
      destruct (Nat.eqb_spec (length data) 0); [lia|reflexivity]. }
    pose proof (integrated_loop_finishes fuel data samplingRate w) as HI.
    pose proof (rms_loop_finishes fuel data samplingRate w) as HR.
    rewrite Hc in HI, HR.
    split.
    + destruct (IntegratedChart.loop fuel data samplingRate w
                  IntegratedChart.init); [|reflexivity].
      assert (Some s <> None) as Hs by discriminate.
      apply HI in Hs. discriminate.
    + destruct (RMSChart.loop fuel data samplingRate w RMSChart.init);
        [|reflexivity].
      assert (Some s <> None) as Hs by discriminate.
      apply HR in Hs. discriminate.
  - intros [|]; vm_compute; lia.
Qed.

Lemma C10_stride_termination_witness :
  IntegratedChart.loop 5 (limitedData [1; 2; 3] 20) 20 (windowSize 20)
    IntegratedChart.init <> None
  <-> (ceil_div (length (limitedData [1%R; 2%R; 3%R] 20)) (windowSize 20)
       < 5)%nat.
Proof.
  assert (Hw : (1 <= windowSize (sampling_rate_or_default (Some 20%nat)))%nat)
    by (vm_compute; lia).
  destruct (C10_stride_termination [1; 2; 3] (Some 20%nat))
    as (_ & _ & Hpos & _).
  destruct (Hpos Hw) as (_ & _ & _ & HI & _).
  exact (HI 5%nat).
Defined.

(** * Further properties of the statistics engine *)

(** The filtered half of the bundle of a non-empty series is the set of
    statistics of a non-empty sub-series: the series itself, or the samples
    the mask keeps. *)
Lemma calculate_statistics_filtered_form (series : list cell) (flag : bool) :
  dropna series <> [] ->
  let x := dropna series in
  let b := calculate_statistics series flag in
  exists kept,
    kept <> [] /\ (forall v, In v kept -> In v x)
    /\ (length kept <= length x)%nat
    /\ RMS_filtered b = sqrt (np_mean (squares kept))
    /\ Mean_filtered b = np_mean kept
    /\ Std_filtered b = np_std kept
    /\ Max_filtered b = np_max kept
    /\ Min_filtered b = np_min kept
    /\ Count_filtered b = len kept.
Proof.
  intros Hne x b.
  destruct (flag && (20 <? len (dropna series))%Z) eqn:Hc.
  - apply andb_true_iff in Hc. destruct Hc as [Hf Hlt]. subst flag.
    apply Z.ltb_lt in Hlt.
    assert (Hlen : (20 < length x)%nat) by (unfold len in Hlt; subst x; lia).
    exists (mask_between (np_percentile x 2.5) (np_percentile x 97.5) x).
    split; [now apply trimmed_nonempty|].
    split; [intros v Hv; apply mask_between_In in Hv; tauto|].
    split; [apply filter_length_le|].
    subst b. rewrite calculate_statistics_trimmed by exact Hlt.
    cbn. repeat split; reflexivity.
  - exists x. split; [exact Hne|]. split; [auto|]. split; [lia|].
    subst b. rewrite calculate_statistics_untrimmed by assumption.
    cbn. repeat split; reflexivity.
Qed.

Lemma Rsum_deviations (c : R) (a : list R) :
  Rsum (map (fun x => (c - x) * (c - x)) a)
  = Rsum (map (fun x => x * x) a) - 2 * c * Rsum a + INR (length a) * (c * c).
Proof.
  induction a as [|x a IH].
  - simpl. lra.
  - cbn [map Rsum length]. rewrite IH, S_INR. lra.
Qed.

(** Mean square = squared mean + variance. *)
Lemma mean_square_decomposition (a : list R) :
  a <> [] ->
  np_mean (squares a)
  = np_mean a * np_mean a
    + np_sum (map (fun x => (np_mean a - x) * (np_mean a - x)) a)
      / INR (length a - 0).
Proof.
  intros Hne.
  assert (Hn : 0 < INR (length a)).
  { apply lt_0_INR. destruct a; [congruence|simpl; lia]. }
  rewrite Nat.sub_0_r. unfold np_mean at 1, squares.
  rewrite !np_sum_Rsum, length_map, Rsum_deviations.
  unfold np_mean. rewrite np_sum_Rsum. field. lra.
Qed.

Lemma np_mean_squares_nonneg (a : list R) : 0 <= np_mean (squares a).
Proof.
  unfold np_mean, squares. rewrite np_sum_Rsum, length_map.
  pose proof (Rsum_squares_nonneg (fun x => x) a) as H.
  pose proof (pos_INR (length a)) as Hn.
  destruct (Req_dec (INR (length a)) 0) as [E|E].
  - rewrite E. unfold Rdiv. rewrite Rinv_0. lra.
  - apply Rmult_le_pos; [exact H|]. left. apply Rinv_0_lt_compat. lra.
Qed.

Lemma variance_nonneg (a : list R) :
  0 <= np_sum (map (fun x => (np_mean a - x) * (np_mean a - x)) a)
       / INR (length a - 0).
Proof.
  rewrite np_sum_Rsum, Nat.sub_0_r.
  pose proof (Rsum_squares_nonneg (fun x => np_mean a - x) a) as H.
  pose proof (pos_INR (length a)) as Hn.
  destruct (Req_dec (INR (length a)) 0) as [E|E].
  - rewrite E. unfold Rdiv. rewrite Rinv_0. lra.
  - apply Rmult_le_pos; [exact H|]. left. apply Rinv_0_lt_compat. lra.
Qed.

Lemma rms_mean_std (a : list R) :
  a <> [] ->
  sqrt (np_mean (squares a)) * sqrt (np_mean (squares a))
  = np_mean a * np_mean a + np_std a * np_std a.
Proof.
  intros Hne. unfold np_std. cbv zeta.
  rewrite !sqrt_sqrt by (apply np_mean_squares_nonneg || apply variance_nonneg).
  now apply mean_square_decomposition.
Qed.

(** In exact arithmetic the three magnitudes of a bundle are tied together:
    the squared rms is the squared mean plus the squared standard deviation, for the raw fields
    and for the filtered fields of every non-empty series; hence the rms is
    at least the absolute mean and at least the standard deviation. *)
Theorem rms_squared_is_mean_squared_plus_variance
    (series : list cell) (remove_outliers : bool) :
  dropna series <> [] ->
  let b := calculate_statistics series remove_outliers in
  RMS b * RMS b = Mean b * Mean b + Std b * Std b
  /\ RMS_filtered b * RMS_filtered b
     = Mean_filtered b * Mean_filtered b + Std_filtered b * Std_filtered b
  /\ Rabs (Mean b) <= RMS b /\ Std b <= RMS b
  /\ Rabs (Mean_filtered b) <= RMS_filtered b
  /\ Std_filtered b <= RMS_filtered b.
Proof.
  intros Hne b.
  destruct (calculate_statistics_raw series remove_outliers Hne)
    as (HR & HM & HS & _).
  destruct (calculate_statistics_filtered_form series remove_outliers Hne)
    as (kept & Hk & _ & _ & HRf & HMf & HSf & _).
  fold b in HR, HM, HS, HRf, HMf, HSf.
  assert (E1 : RMS b * RMS b = Mean b * Mean b + Std b * Std b)
    by (rewrite HR, HM, HS; now apply rms_mean_std).
  assert (E2 : RMS_filtered b * RMS_filtered b
               = Mean_filtered b * Mean_filtered b
                 + Std_filtered b * Std_filtered b)
    by (rewrite HRf, HMf, HSf; now apply rms_mean_std).
  assert (P1 : 0 <= RMS b) by (rewrite HR; apply sqrt_pos).
  assert (P2 : 0 <= Std b) by (rewrite HS; apply sqrt_pos).
  assert (P3 : 0 <= RMS_filtered b) by (rewrite HRf; apply sqrt_pos).
  assert (P4 : 0 <= Std_filtered b) by (rewrite HSf; apply sqrt_pos).
  repeat split; try assumption.
  - apply Rabs_le. split; nra.
  - nra.
  - apply Rabs_le. split; nra.
  - nra.
Qed.

Lemma rms_squared_is_mean_squared_plus_variance_witness :
  Std (calculate_statistics [Some 3; Some 4] true)
  <= RMS (calculate_statistics [Some 3; Some 4] true).
Proof.
  assert (Hne : dropna [Some 3; Some 4] <> []) by (simpl; discriminate).
  destruct (rms_squared_is_mean_squared_plus_variance
              [Some 3; Some 4] true Hne) as (_ & _ & _ & H & _).
  exact H.
Defined.

Lemma Rsum_bounds (lo hi : R) (a : list R) :
  (forall x, In x a -> lo <= x <= hi) ->
  INR (length a) * lo <= Rsum a <= INR (length a) * hi.
Proof.
  induction a as [|x a IH]; intros H.
  - simpl. lra.
  - cbn [Rsum length]. rewrite S_INR.
    assert (Hx : lo <= x <= hi) by (apply H; now left).
    assert (Ha : INR (length a) * lo <= Rsum a <= INR (length a) * hi)
      by (apply IH; intros y Hy; apply H; now right).
    lra.
Qed.

(** The mean of a non-empty series lies between any two bounds of its
    samples. *)
Lemma np_mean_bounds (lo hi : R) (a : list R) :
  a <> [] -> (forall x, In x a -> lo <= x <= hi) ->
  lo <= np_mean a <= hi.
Proof.
  intros Hne H.
  assert (Hn : 0 < INR (length a)).
  { apply lt_0_INR. destruct a; [congruence|simpl; lia]. }
  destruct (Rsum_bounds lo hi a H) as [H1 H2].
  unfold np_mean. rewrite np_sum_Rsum. split.
  - apply Rmult_le_reg_r with (INR (length a)); [exact Hn|].
    unfold Rdiv. rewrite Rmult_assoc, Rinv_l by lra. lra.
  - apply Rmult_le_reg_r with (INR (length a)); [exact Hn|].
    unfold Rdiv. rewrite Rmult_assoc, Rinv_l by lra. lra.
Qed.

(** In exact arithmetic, within a bundle of a non-empty series the fields
    are ordered
    [Min <= Min_filtered <= Mean_filtered <= Max_filtered <= Max] and
    [Min <= Mean <= Max]: trimming never widens the range. *)
Theorem bundle_fields_ordered (series : list cell) (remove_outliers : bool) :
  dropna series <> [] ->
  let b := calculate_statistics series remove_outliers in
  Min b <= Mean b <= Max b
  /\ Min b <= Min_filtered b
  /\ Min_filtered b <= Mean_filtered b
  /\ Mean_filtered b <= Max_filtered b
  /\ Max_filtered b <= Max b
  /\ (1 <= Count_filtered b <= Count b)%Z.
Proof.
  intros Hne b.
  destruct (calculate_statistics_raw series remove_outliers Hne)
    as (_ & HM & _ & HMax & HMin & HC).
  destruct (calculate_statistics_filtered_form series remove_outliers Hne)
    as (kept & Hk & Hsub & Hlen & _ & HMf & _ & HMaxf & HMinf & HCf).
  fold b in HM, HMax, HMin, HC, HMf, HMaxf, HMinf, HCf.
  destruct (np_max_spec _ Hne) as [_ Hub].
  destruct (np_min_spec _ Hne) as [_ Hlb].
  destruct (np_max_spec _ Hk) as [Hkmax Hkub].
  destruct (np_min_spec _ Hk) as [Hkmin Hklb].
  rewrite HM, HMax, HMin, HC, HMf, HMaxf, HMinf, HCf.
  split.
  { apply np_mean_bounds; [exact Hne|]. intros v Hv. split; auto. }
  split; [apply Hlb, Hsub, Hkmin|].
  assert (Hm : np_min kept <= np_mean kept <= np_max kept).
  { apply np_mean_bounds; [exact Hk|]. intros v Hv. split; auto. }
  split; [apply Hm|]. split; [apply Hm|].
  split; [apply Hub, Hsub, Hkmax|].
  unfold len. destruct kept; [congruence|]. cbn [length] in *. lia.
Qed.

Lemma bundle_fields_ordered_witness :
  Min_filtered (calculate_statistics [Some 3; None; Some 4] true)
  <= Mean_filtered (calculate_statistics [Some 3; None; Some 4] true).
Proof.
  assert (Hne : dropna [Some 3; None; Some 4] <> []) by (simpl; discriminate).
  destruct (bundle_fields_ordered [Some 3; None; Some 4] true Hne)
    as (_ & _ & H & _).
  exact H.
Defined.

(** In exact arithmetic, with trimming, the retained samples and the
    thresholds interleave:
    [Min <= P2.5 <= Min_filtered] and [Max_filtered <= P97.5 <= Max]. *)
Theorem trimmed_extrema_within_percentiles (series : list cell) :
  (20 < len (dropna series))%Z ->
  let x := dropna series in
  let b := calculate_statistics series true in
  Min b <= np_percentile x 2.5
  /\ np_percentile x 2.5 <= Min_filtered b
  /\ Max_filtered b <= np_percentile x 97.5
  /\ np_percentile x 97.5 <= Max b.
Proof.
  intros H x b.
  assert (Hlen : (20 < length x)%nat) by (unfold len in H; subst x; lia).
  destruct (trim_interval_inhabited x Hlen) as (H1 & _ & H3 & _).
  pose proof (trimmed_nonempty x Hlen) as Hk.
  destruct (np_max_spec _ Hk) as [Hkmax _].
  destruct (np_min_spec _ Hk) as [Hkmin _].
  apply mask_between_In in Hkmax. apply mask_between_In in Hkmin.
  subst b. rewrite calculate_statistics_trimmed by exact H. cbn.
  fold x. repeat split; tauto.
Qed.

Lemma trimmed_extrema_within_percentiles_witness :
  Max_filtered (calculate_statistics (repeat (Some 2%R) 30) true)
  <= np_percentile (dropna (repeat (Some 2%R) 30)) 97.5.
Proof.
  assert (H : (20 < len (dropna (repeat (Some 2%R) 30)))%Z)
    by (unfold len; simpl; lia).
  destruct (trimmed_extrema_within_percentiles (repeat (Some 2%R) 30) H)
    as (_ & _ & HM & _).
  exact HM.
Defined.

(** The two implementations agree: the raw-only engine of
    [emg_analysis_improved.py] returns the raw fields of the engine of
    [emg_web_report.py], and [calculate_rms] returns its [RMS], on every
    column, empty or not. *)
Theorem improved_engine_agrees (series : list cell) (remove_outliers : bool) :
  let b := calculate_statistics series remove_outliers in
  let r := Improved.calculate_statistics series in
  Improved.RMS r = RMS b /\ Improved.Mean r = Mean b
  /\ Improved.Std r = Std b /\ Improved.Max r = Max b
  /\ Improved.Min r = Min b /\ Improved.Count r = Count b
  /\ Improved.calculate_rms series = RMS b.
Proof.
  intros b r. subst b r.
  unfold calculate_statistics, calculate_statistics_with,
    Improved.calculate_statistics, Improved.calculate_rms.
  destruct (dropna series) as [|y ys].
  - cbn. repeat split; reflexivity.
  - destruct (remove_outliers && (20 <? len (y :: ys))%Z);
      cbn; repeat split; reflexivity.
Qed.

(** ** How many samples trimming removes *)

Lemma filter_length_perm {A : Type} (f : A -> bool) (l l' : list A) :
  Permutation l l' -> length (filter f l) = length (filter f l').
Proof.
  induction 1 as [|x l l' _ IH|x y l|l l' l'' _ IH1 _ IH2]; simpl.
  - reflexivity.
  - destruct (f x); simpl; lia.
  - destruct (f x), (f y); reflexivity.
  - lia.
Qed.

Lemma filter_none_below (t : R) (l : list R) :
  (forall z, In z l -> t <= z) ->
  filter (fun x => negb (Rleb t x)) l = [].
Proof.
  induction l as [|y l IH]; intros H; simpl; [reflexivity|].
  assert (Hy : Rleb t y = true) by (apply Rleb_true, H; now left).
  rewrite Hy. simpl. apply IH. intros z Hz. apply H. now right.
Qed.

(** In a sorted series, the samples strictly below a threshold that the
    [k]-th order statistic reaches are among the first [k]. *)
Lemma sorted_count_below (t : R) (s : list R) :
  StronglySorted Rle s ->
  forall k, ((k < length s)%nat -> t <= nth k s 0) ->
    (length (filter (fun x => negb (Rleb t x)) s) <= k)%nat.
Proof.
  induction 1 as [|y s Hs IH Hall]; intros k Hk; simpl; [lia|].
  rewrite Forall_forall in Hall.
  destruct k as [|k].
  - assert (Hy : t <= y) by (apply Hk; simpl; lia).
    rewrite (proj2 (Rleb_true t y) Hy). simpl.
    rewrite filter_none_below; [simpl; lia|].
    intros z Hz. specialize (Hall z Hz). lra.
  - assert (IHk : (length (filter (fun x => negb (Rleb t x)) s) <= k)%nat).
    { apply IH. intros Hlt. apply (Hk ltac:(simpl; lia)). }
    destruct (negb (Rleb t y)); simpl; lia.
Qed.

(** In a sorted series, the samples strictly above a threshold that the
    [k]-th order statistic does not exceed come after position [k]. *)
Lemma sorted_count_above (t : R) (s : list R) :
  StronglySorted Rle s ->
  forall k, (k < length s)%nat -> nth k s 0 <= t ->
    (length (filter (fun x => negb (Rleb x t)) s) <= length s - S k)%nat.
Proof.
  induction 1 as [|y s Hs IH Hall]; intros k Hlt Hk; simpl in *; [lia|].
  rewrite Forall_forall in Hall.
  assert (Hy : y <= t).
  { destruct k as [|k]; [exact Hk|].
    assert (Hin : In (nth k s 0) s) by (apply nth_In; lia).
    specialize (Hall _ Hin). lra. }
  rewrite (proj2 (Rleb_true y t) Hy). simpl.
  destruct k as [|k].
  - rewrite Nat.sub_0_r. apply filter_length_le.
  - apply IH; [lia|exact Hk].
Qed.

Lemma filter_outside_length (lo hi : R) (l : list R) :
  (length (filter (fun x => negb (Rleb lo x && Rleb x hi)) l)
   <= length (filter (fun x => negb (Rleb lo x)) l)
      + length (filter (fun x => negb (Rleb x hi)) l))%nat.
Proof.
  induction l as [|y l IH]; simpl; [lia|].
  destruct (Rleb lo y), (Rleb y hi); simpl; lia.
Qed.

Lemma removed_count_bound (a : list R) :
  (20 < length a)%nat ->
  (length a
   - length (mask_between (np_percentile a 2.5) (np_percentile a 97.5) a)
   <= next_index a 2.5 + (length a - S (previous_index a 97.5)))%nat.
Proof.
  intros Hlen.
  assert (Hne : a <> []) by (destruct a; [simpl in Hlen; lia|congruence]).
  assert (Hql : 0 <= 2.5 <= 100) by lra.
  assert (Hqh : 0 <= 97.5 <= 100) by lra.
  pose proof (np_percentile_between a 2.5 Hne Hql) as [_ Hl2].
  pose proof (np_percentile_between a 97.5 Hne Hqh) as [Hh1 _].
  pose proof (previous_index_bound a 97.5 Hqh) as Bh.
  set (lo := np_percentile a 2.5) in *.
  set (hi := np_percentile a 97.5) in *.
  unfold mask_between.
  pose proof (filter_length (fun x => Rleb lo x && Rleb x hi) a) as Hpart.
  pose proof (filter_outside_length lo hi a) as Hout.
  pose proof (np_sort_perm a) as Hperm.
  rewrite (filter_length_perm (fun x => negb (Rleb lo x)) _ _ Hperm) in Hout.
  rewrite (filter_length_perm (fun x => negb (Rleb x hi)) _ _ Hperm) in Hout.
  pose proof (sorted_count_below lo (np_sort a) (np_sort_sorted a)
                (next_index a 2.5) (fun _ => Hl2)) as Hbelow.
  assert (Hk : (previous_index a 97.5 < length (np_sort a))%nat)
    by (rewrite np_sort_length; lia).
  pose proof (sorted_count_above hi (np_sort a) (np_sort_sorted a)
                (previous_index a 97.5) Hk Hh1) as Habove.
  rewrite np_sort_length in Habove. lia.
Qed.

(** The real-number form of [removed_count_bound]. *)
Lemma removed_fraction_bound (x : list R) :
  (20 < length x)%nat ->
  INR (length x
       - length (mask_between (np_percentile x 2.5) (np_percentile x 97.5) x))
  < 0.05 * (INR (length x) - 1) + 2.
Proof.
  intros Hlen.
  pose proof (removed_count_bound x Hlen) as Hb.
  set (kept := mask_between (np_percentile x 2.5) (np_percentile x 97.5) x)
    in *.
  assert (Hm : INR (length x - 1) = INR (length x) - 1).
  { rewrite minus_INR by lia. simpl. lra. }
  assert (Hnext : INR (next_index x 2.5) <= INR (length x - 1) * (2.5 / 100) + 1).
  { assert (H0 : 0 <= virtual_index x 2.5).
    { unfold virtual_index. pose proof (pos_INR (length x - 1)). lra. }
    destruct (Int_part_bounds _ H0) as [_ [Hlo _]].
    assert (Hn : (next_index x 2.5 <= previous_index x 2.5 + 1)%nat)
      by (unfold next_index; lia).
    apply le_INR in Hn. rewrite plus_INR in Hn. simpl in Hn.
    unfold previous_index in Hn. rewrite INR_to_nat_Int_part in Hn by exact H0.
    unfold virtual_index in Hlo, Hn. lra. }
  assert (Hprev : INR (length x - 1) * (97.5 / 100) - 1
                  < INR (previous_index x 97.5)).
  { assert (H0 : 0 <= virtual_index x 97.5).
    { unfold virtual_index. pose proof (pos_INR (length x - 1)). lra. }
    destruct (Int_part_bounds _ H0) as [_ [_ Hhi]].
    unfold previous_index. rewrite INR_to_nat_Int_part by exact H0.
    unfold virtual_index in Hhi |- *. lra. }
  assert (Hph : (previous_index x 97.5 <= length x - 1)%nat)
    by (apply previous_index_bound; lra).
  apply le_INR in Hb. rewrite plus_INR in Hb.
  rewrite (minus_INR (length x) (S (previous_index x 97.5))) in Hb by lia.
  rewrite S_INR in Hb. lra.
Qed.

(** In exact arithmetic trimming removes fewer than five percent of the
    samples plus two: [Outliers_removed < 0.05 * (Count - 1) + 2]. *)
Theorem outliers_removed_at_most_five_percent (series : list cell) :
  (20 < len (dropna series))%Z ->
  let b := calculate_statistics series true in
  IZR (Outliers_removed b) < 0.05 * (IZR (Count b) - 1) + 2.
Proof.
  intros H b.
  set (x := dropna series) in *.
  assert (Hlen : (20 < length x)%nat) by (unfold len in H; lia).
  pose proof (removed_fraction_bound x Hlen) as Hb.
  pose proof (mask_between_length (np_percentile x 2.5)
                (np_percentile x 97.5) x) as Hle.
  subst b. rewrite calculate_statistics_trimmed by exact H. cbn. fold x.
  set (kept := mask_between (np_percentile x 2.5) (np_percentile x 97.5) x)
    in *.
  unfold len in *.
  assert (Hsub : IZR (Z.of_nat (length x) - Z.of_nat (length kept))
                 = INR (length x - length kept)).
  { rewrite <- Nat2Z.inj_sub by lia. now rewrite <- INR_IZR_INZ. }
  rewrite Hsub, <- INR_IZR_INZ. lra.
Qed.

Lemma outliers_removed_at_most_five_percent_witness :
  IZR (Outliers_removed (calculate_statistics (repeat (Some 2%R) 41) true))
  < 0.05 * (IZR (Count (calculate_statistics (repeat (Some 2%R) 41) true)) - 1)
    + 2.
Proof.
  apply (outliers_removed_at_most_five_percent (repeat (Some 2%R) 41)).
  unfold len. simpl. lia.
Defined.

(** * Further properties of the report cells and of the charts *)




Lemma slice_In {A : Type} (l : list A) (b e : nat) (x : A) :
  In x (slice l b e) -> In x l.
Proof.
  unfold slice. intros H.
  rewrite <- (firstn_skipn b l). apply in_or_app. right.
  rewrite <- (firstn_skipn (e - b) (skipn b l)). apply in_or_app. now left.
Qed.

Lemma window_avg_np_mean (window : list R) : window_avg window = np_mean window.
Proof. reflexivity. Qed.

(** The windows a finished run reduces are non-empty pieces of the input. *)
Lemma finished_windows (data : list R) (w fuel : nat) (win : list R) :
  ((0 <? w)%nat || (length data =? 0)%nat)
  && (ceil_div (length data) w <? fuel)%nat = true ->
  In win (partition_windows data w) ->
  win <> [] /\ forall x, In x win -> In x data.
Proof.
  intros Hc Hin. unfold partition_windows in Hin.
  apply in_map_iff in Hin. destruct Hin as (k & <- & Hk).
  apply in_seq in Hk. cbn in Hk. destruct Hk as [_ Hk].
  apply andb_true_iff in Hc. destruct Hc as [Hc _].
  apply orb_true_iff in Hc. destruct Hc as [Hw|He].
  - apply Nat.ltb_lt in Hw. split.
    + intros E. pose proof (nth_window_length data w k) as Hl.
      rewrite E in Hl. cbn in Hl.
      apply (ceil_div_lt (length data) w k Hw) in Hk. lia.
    + intros x Hx. unfold nth_window in Hx. eapply slice_In; eauto.
  - apply Nat.eqb_eq in He. rewrite He, ceil_div_zero in Hk. lia.
Qed.

(** In exact arithmetic every value of the trend chart lies between the
    least and the greatest sample of the series, and every value of the RMS
    chart is non-negative. *)
Theorem windowed_values_bounded (fuel : nat) (yData : list R)
    (sampling_rate : option nat) (ts vs : list R) :
  (IntegratedChart.resample fuel yData sampling_rate = Some (ts, vs) ->
   forall v, In v vs -> np_min yData <= v <= np_max yData)
  /\ (RMSChart.resample fuel yData sampling_rate = Some (ts, vs) ->
      forall v, In v vs -> 0 <= v).
Proof.
  split; intros H v Hv.
  - rewrite integrated_resample_cases in H.
    destruct (_ && _) eqn:Hc in H; [|discriminate].
    injection H as _ <-.
    apply in_map_iff in Hv. destruct Hv as (win & <- & Hwin).
    destruct (finished_windows _ _ _ _ Hc Hwin) as [Hne Hsub].
    assert (Hy : forall x, In x win -> In x yData).
    { intros x Hx. apply Hsub in Hx. unfold limitedData in Hx.
      eapply slice_In; eauto. }
    assert (Hyne : yData <> []).
    { destruct win as [|x0 win']; [congruence|].
      intros E. specialize (Hy x0 ltac:(now left)). rewrite E in Hy.
      exact Hy. }
    destruct (np_max_spec _ Hyne) as [_ Hub].
    destruct (np_min_spec _ Hyne) as [_ Hlb].
    rewrite window_avg_np_mean.
    apply np_mean_bounds; [exact Hne|]. intros x Hx. split; auto.
  - rewrite rms_resample_cases in H.
    destruct (_ && _) in H; [|discriminate].
    injection H as _ <-.
    apply in_map_iff in Hv. destruct Hv as (win & <- & _).
    apply sqrt_pos.
Qed.

Lemma windowed_values_bounded_witness :
  np_min [1; 3] <= 1 / 1 <= np_max [1; 3].
Proof.
  apply (proj1 (windowed_values_bounded 3 [1; 3] (Some 10%nat)
                  [INR 0 / INR 10; INR 1 / INR 10] [1 / 1; 3 / 1])).
  - unfold IntegratedChart.resample. cbn. unfold window_avg. cbn.
    repeat f_equal; lra.
  - simpl. now left.
Defined.

(** For the sampling rates the analysis assigns both charts finish within
    101 evaluations of the loop condition, with at most 100 points, the
    [k]-th stamped [k / 10] seconds. *)
Lemma assigned_rates_resample
    (t : source_type) (yData : list R) (fuel : nat) :
  (100 < fuel)%nat ->
  exists ts means rmss,
    IntegratedChart.resample fuel yData (Some (assigned_sampling_rate t))
    = Some (ts, means)
    /\ RMSChart.resample fuel yData (Some (assigned_sampling_rate t))
       = Some (ts, rmss)
    /\ length means = length ts /\ length rmss = length ts
    /\ (length ts <= 100)%nat
    /\ forall k, (k < length ts)%nat -> nth k ts 0 = INR k / 10.
Proof.
  intros Hfuel.
  destruct (assigned_rate_cases t) as (Hsr & Hw & Hinr).
  set (sr := sampling_rate_or_default (Some (assigned_sampling_rate t))) in *.
  set (w := windowSize sr) in *.
  set (data := limitedData yData sr).
  assert (HN : (ceil_div (length data) w <= 100)%nat).
  { apply ceil_div_le; [exact Hw|].
    unfold data. rewrite limitedData_length. lia. }
  assert (Hc : ((0 <? w)%nat || (length data =? 0)%nat)
               && (ceil_div (length data) w <? fuel)%nat = true).
  { apply andb_true_iff. split.
    - apply orb_true_iff. left. now apply Nat.ltb_lt.
    - apply Nat.ltb_lt. lia. }
  exists (map (leading_edge sr w) (seq 0 (ceil_div (length data) w))),
         (map window_avg (partition_windows data w)),
         (map window_rms (partition_windows data w)).
  rewrite integrated_resample_cases, rms_resample_cases.
  fold sr. fold w. fold data. rewrite Hc.
  rewrite !length_map, length_seq, partition_windows_length.
  repeat split; try reflexivity; try exact HN.
  intros k Hk.
  rewrite (nth_indep _ 0 (leading_edge sr w 0))
    by (now rewrite length_map, length_seq).
  rewrite map_nth, seq_nth by exact Hk. cbn [plus].
  unfold leading_edge. rewrite mult_INR, Hinr.
  assert (Hwpos : 0 < INR w) by (now apply lt_0_INR).
  field. lra.
Qed.

(** ** The cells of a statistics card *)

Lemma js_div_nonzero (x y : R) : y <> 0 -> js_div x y = Finite (x / y).
Proof. intros H. unfold js_div. destruct (Req_dec_T y 0); congruence. Qed.

Lemma js_div_zero_zero : js_div 0 0 = NaN.
Proof.
  unfold js_div. destruct (Req_dec_T 0 0) as [_|H]; [|congruence].
  reflexivity.
Qed.

(** The card of a channel without numeric samples: both coefficients of
    variation read ['N/A'], but the outlier percentage is the unguarded
    [0 / 0] and reads [NaN]. *)
Theorem empty_channel_card (series : list cell) (remove_outliers : bool) :
  dropna series = [] ->
  displayDetailedStats_cells (calculate_statistics series remove_outliers)
  = {| cv_filtered := Text_NA; cv_original := Text_NA;
       outlier_percent := Text_NaN |}.
Proof.
  intros E.
  unfold calculate_statistics, calculate_statistics_with. rewrite E.
  unfold displayDetailedStats_cells, cv_cell, outlier_percent_cell.
  cbn [Std_filtered Mean_filtered Std Mean Outliers_removed Count].
  rewrite (proj1 (js_neq_zero_spec 0) eq_refl), js_div_zero_zero.
  reflexivity.
Qed.

Lemma empty_channel_card_witness :
  outlier_percent
    (displayDetailedStats_cells (calculate_statistics [None; None] true))
  = Text_NaN.
Proof.
  rewrite (empty_channel_card [None; None] true); reflexivity.
Defined.

Lemma cv_cell_cases (std mean : R) :
  (mean = 0 -> cv_cell std mean = Text_NA)
  /\ (mean <> 0 ->
      cv_cell std mean = Text_fixed 2 (toFixed 2 (std / mean * 100))).
Proof.
  unfold cv_cell. destruct (js_neq_zero_spec mean) as [H0 H1].
  split; intros H.
  - now rewrite (H0 H).
  - rewrite (H1 H), js_div_nonzero by exact H. reflexivity.
Qed.

Lemma outliers_removed_range (series : list cell) (flag : bool) :
  dropna series <> [] ->
  let b := calculate_statistics series flag in
  0 <= IZR (Outliers_removed b)
  /\ 20 * IZR (Outliers_removed b) <= 3 * IZR (Count b)
  /\ 0 < IZR (Count b).
Proof.
  intros Hne b. subst b.
  assert (Hpos : (0 < length (dropna series))%nat).
  { destruct (dropna series); [congruence|simpl; lia]. }
  destruct (flag && (20 <? len (dropna series))%Z) eqn:Hc.
  - apply andb_true_iff in Hc. destruct Hc as [-> Hlt].
    apply Z.ltb_lt in Hlt.
    rewrite calculate_statistics_trimmed by exact Hlt. cbn.
    set (x := dropna series) in *.
    assert (Hlen : (20 < length x)%nat) by (unfold len in Hlt; lia).
    pose proof (removed_fraction_bound x Hlen) as Hb.
    pose proof (mask_between_length (np_percentile x 2.5)
                  (np_percentile x 97.5) x) as Hle.
    set (kept := mask_between (np_percentile x 2.5) (np_percentile x 97.5) x)
      in *.
    unfold len in *.
    assert (Hsub : IZR (Z.of_nat (length x) - Z.of_nat (length kept))
                   = INR (length x - length kept)).
    { rewrite <- Nat2Z.inj_sub by lia. now rewrite <- INR_IZR_INZ. }
    rewrite Hsub, <- INR_IZR_INZ.
    assert (H21 : 21 <= INR (length x)).
    { replace 21 with (INR 21) by (simpl; lra). apply le_INR. lia. }
    pose proof (pos_INR (length x - length kept)).
    repeat split; lra.
  - rewrite calculate_statistics_untrimmed by assumption. cbn.
    unfold len. rewrite <- INR_IZR_INZ.
    apply lt_INR in Hpos. simpl in Hpos. repeat split; lra.
Qed.

(** In exact arithmetic, on the card of a channel with numeric samples each
    coefficient of variation is ['N/A'] exactly when its mean is zero and
    [Std / Mean * 100] with two decimals otherwise, and the outlier
    percentage is a number with one decimal between 0.0 and 15.0. *)
Theorem nonempty_channel_card (series : list cell) (remove_outliers : bool) :
  dropna series <> [] ->
  let b := calculate_statistics series remove_outliers in
  let card := displayDetailedStats_cells b in
  (Mean_filtered b = 0 -> cv_filtered card = Text_NA)
  /\ (Mean_filtered b <> 0 ->
      cv_filtered card
      = Text_fixed 2 (toFixed 2 (Std_filtered b / Mean_filtered b * 100)))
  /\ (Mean b = 0 -> cv_original card = Text_NA)
  /\ (Mean b <> 0 ->
      cv_original card = Text_fixed 2 (toFixed 2 (Std b / Mean b * 100)))
  /\ exists tenths,
       outlier_percent card = Text_fixed 1 tenths
       /\ (0 <= tenths <= 150)%Z.
Proof.
  intros Hne b card.
  destruct (cv_cell_cases (Std_filtered b) (Mean_filtered b)) as [F0 F1].
  destruct (cv_cell_cases (Std b) (Mean b)) as [O0 O1].
  repeat (split; [assumption|]).
  destruct (outliers_removed_range series remove_outliers Hne)
    as (H0 & H15 & Hc).
  fold b in H0, H15, Hc.
  subst card. unfold displayDetailedStats_cells, outlier_percent_cell.
  cbn [outlier_percent].
  rewrite js_div_nonzero by lra. cbn [js_times_100 js_toFixed].
  eexists. split; [reflexivity|].
  set (p := IZR (Outliers_removed b) / IZR (Count b) * 100).
  assert (Hp : 0 <= p <= 15).
  { unfold p. split.
    - apply Rmult_le_pos; [|lra]. apply Rmult_le_pos; [exact H0|].
      left. now apply Rinv_0_lt_compat.
    - assert (Hq : IZR (Outliers_removed b) / IZR (Count b) <= 3 / 20).
      { apply Rmult_le_reg_r with (IZR (Count b)); [exact Hc|].
        unfold Rdiv at 1. rewrite Rmult_assoc, Rinv_l by lra. lra. }
      lra. }
  unfold toFixed. destruct (Rlt_dec p 0) as [Hneg|_]; [lra|].
  assert (Hr : 0 <= p * 10 ^ 1 + / 2) by (simpl; lra).
  destruct (Int_part_bounds _ Hr) as [Hz [Hlo Hhi]].
  split; [exact Hz|].
  assert (Hlt : (Int_part (p * 10 ^ 1 + / 2) < 151)%Z).
  { apply lt_IZR. simpl in Hlo |- *. lra. }
  lia.
Qed.

Lemma nonempty_channel_card_witness :
  exists tenths,
    outlier_percent
      (displayDetailedStats_cells (calculate_statistics [Some 3; Some 4] true))
    = Text_fixed 1 tenths
    /\ (0 <= tenths <= 150)%Z.
Proof.
  assert (Hne : dropna [Some 3; Some 4] <> []) by (simpl; discriminate).
  destruct (nonempty_channel_card [Some 3; Some 4] true Hne)
    as (_ & _ & _ & _ & H).
  exact H.
Defined.

(** ** The per-source chart: time axis and two-sigma band *)

Lemma time_axis_from_seq (data : list R) (samplingRate : nat) :
  forall i,
    time_axis_from i data samplingRate
    = map (fun k => INR k / INR samplingRate) (seq i (length data)).
Proof.
  induction data as [|x data IH]; intros i; [reflexivity|].
  cbn [time_axis_from length seq map]. now rewrite IH.
Qed.

Lemma time_axis_length (data : list R) (samplingRate i : nat) :
  length (time_axis_from i data samplingRate) = length data.
Proof. now rewrite time_axis_from_seq, length_map, length_seq. Qed.

Lemma time_axis_nth (data : list R) (samplingRate k : nat) :
  (k < length data)%nat ->
  nth k (time_axis_from 0 data samplingRate) 0 = INR k / INR samplingRate.
Proof.
  intros Hk. rewrite time_axis_from_seq.
  rewrite (nth_indep _ 0 ((fun j => INR j / INR samplingRate) 0%nat))
    by (now rewrite length_map, length_seq).
  rewrite (map_nth (fun j => INR j / INR samplingRate)).
  now rewrite seq_nth.
Qed.










(** The outline of the band is closed over the time axis: it has twice as
    many points as the channel has samples, it runs out along the times
    [k / samplingRate] of the signal trace and back along the same times in
    reverse. *)
Theorem band_outline_shape (data : list R) (samplingRate : nat) :
  let band := band_trace data samplingRate in
  let signal := signal_trace data samplingRate in
  let n := length data in
  length (trace_x band) = (2 * n)%nat
  /\ length (trace_y band) = (2 * n)%nat
  /\ trace_y signal = data
  /\ length (trace_x signal) = n
  /\ forall k, (k < n)%nat ->
       nth k (trace_x signal) 0 = INR k / INR samplingRate
       /\ nth k (trace_x band) 0 = INR k / INR samplingRate
       /\ nth (2 * n - 1 - k) (trace_x band) 0 = INR k / INR samplingRate.
Proof.
  intros band signal n. subst band signal. unfold band_trace, signal_trace.
  cbn [trace_x trace_y].
  rewrite !length_app, !length_rev, !length_map, !time_axis_length.
  fold n. repeat split; try lia.
  - now apply time_axis_nth.
  - rewrite app_nth1 by (rewrite time_axis_length; fold n; lia).
    now apply time_axis_nth.
  - rewrite app_nth2 by (rewrite time_axis_length; fold n; lia).
    rewrite time_axis_length. fold n.
    rewrite rev_nth by (rewrite time_axis_length; fold n; lia).
    rewrite time_axis_length. fold n.
    replace (n - S (2 * n - 1 - k - n))%nat with k by lia.
    now apply time_axis_nth.
Qed.

Lemma band_outline_shape_witness :
  nth (2 * length [5; 6] - 1 - 1) (trace_x (band_trace [5; 6] 1000)) 0
  = INR 1 / INR 1000.
Proof.
  destruct (band_outline_shape [5; 6] 1000) as (_ & _ & _ & _ & H).
  assert (Hk : (1 < length [5%R; 6%R])%nat) by (simpl; lia).
  exact (proj2 (proj2 (H 1%nat Hk))).
Defined.

(** ** The analysis loop *)

Lemma process_sources_fold (files : source_name -> file_state) :
  forall items acc,
    let outcomes :=
      flat_map
        (fun item =>
           match source_outcome files item with
           | Some entries => [(fst item, entries)]
           | None => []
           end)
        items in
    fold_left (process_source files) items acc
    = {| analysis_results :=
           analysis_results acc
           ++ map (fun o => (fst o, fst (fst (snd o)))) outcomes;
         detailed_stats :=
           detailed_stats acc
           ++ map (fun o => (fst o, snd (fst (snd o)))) outcomes;
         time_series_data :=
           time_series_data acc
           ++ map (fun o => (fst o, snd (snd o))) outcomes |}.
Proof.
  induction items as [|item items IH]; intros acc; cbv zeta.
  - cbn. rewrite !app_nil_r. now destruct acc.
  - cbn [fold_left flat_map]. rewrite IH. cbv zeta.
    unfold process_source, source_outcome.
    destruct (files (fst item)) as [| |df]; cbn [app]; try reflexivity.
    destruct (df (quad_col (snd item))) as [quad|]; cbn [app];
      try reflexivity.
    destruct (df (bicep_col (snd item))) as [bicep|]; cbn [app];
      try reflexivity.
    cbn [analysis_results detailed_stats time_series_data map app fst snd].
    now rewrite <- !app_assoc.
Qed.

(** The three dictionaries are the entries of the usable sources, one after
    the other in configuration order: each source contributes to all three
    or to none, so they carry the same keys in the same order. *)
Theorem analysis_is_per_source (files : source_name -> file_state) :
  let a := analyze_emg_data files in
  let outcomes := analysis_outcomes files in
  analysis_results a = map (fun o => (fst o, fst (fst (snd o)))) outcomes
  /\ detailed_stats a = map (fun o => (fst o, snd (fst (snd o)))) outcomes
  /\ time_series_data a = map (fun o => (fst o, snd (snd o))) outcomes
  /\ map fst (analysis_results a) = map fst (detailed_stats a)
  /\ map fst (detailed_stats a) = map fst (time_series_data a).
Proof.
  intros a outcomes. subst a. unfold analyze_emg_data.
  rewrite process_sources_fold. cbv zeta. fold (analysis_outcomes files).
  fold outcomes. cbn [analysis_results detailed_stats time_series_data
                      no_analysis app].
  repeat split; rewrite ?map_map; reflexivity.
Qed.

Lemma analysis_lookup (files : source_name -> file_state)
    (item : source_name * source_config) :
  In item file_configs ->
  let a := analyze_emg_data files in
  find_source (fst item) (analysis_results a)
  = option_map (fun e => fst (fst e)) (source_outcome files item)
  /\ find_source (fst item) (detailed_stats a)
     = option_map (fun e => snd (fst e)) (source_outcome files item)
  /\ find_source (fst item) (time_series_data a)
     = option_map (fun e => snd e) (source_outcome files item).
Proof.
  intros Hin a. subst a. unfold analyze_emg_data.
  rewrite process_sources_fold. cbv zeta.
  cbn [analysis_results detailed_stats time_series_data no_analysis app].
  unfold file_configs in *. cbn [flat_map].
  destruct Hin as [<-|[<-|[<-|[]]]];
    destruct (source_outcome files (S419, _)) as [e1|];
    destruct (source_outcome files (S445, _)) as [e2|];
    destruct (source_outcome files (SNoraxon, _)) as [e3|];
    cbn; repeat split; reflexivity.
Qed.

(** A source is looked up in the three dictionaries with the outcome of its
    own file alone: absent from all three when the file is missing,
    unreadable or lacks a selected column, present in all three otherwise;
    so two runs that see the same file for a source give it the same
    entries, whatever happens to the other files. *)
Theorem sources_are_independent
    (files files' : source_name -> file_state)
    (item : source_name * source_config) :
  In item file_configs ->
  files' (fst item) = files (fst item) ->
  let a := analyze_emg_data files in
  let a' := analyze_emg_data files' in
  find_source (fst item) (analysis_results a')
  = find_source (fst item) (analysis_results a)
  /\ find_source (fst item) (detailed_stats a')
     = find_source (fst item) (detailed_stats a)
  /\ find_source (fst item) (time_series_data a')
     = find_source (fst item) (time_series_data a)
  /\ (find_source (fst item) (analysis_results a) = None
      <-> source_outcome files item = None)
  /\ (find_source (fst item) (detailed_stats a) = None
      <-> source_outcome files item = None)
  /\ (find_source (fst item) (time_series_data a) = None
      <-> source_outcome files item = None).
Proof.
  intros Hin Hsame a a'.
  destruct (analysis_lookup files item Hin) as (H1 & H2 & H3).
  destruct (analysis_lookup files' item Hin) as (H1' & H2' & H3').
  fold a in H1, H2, H3. fold a' in H1', H2', H3'.
  assert (E : source_outcome files' item = source_outcome files item)
    by (unfold source_outcome; now rewrite Hsame).
  rewrite H1, H2, H3, H1', H2', H3', E.
  repeat split; try reflexivity;
    destruct (source_outcome files item); cbn; congruence.
Qed.

Lemma sources_are_independent_witness :
  find_source S419
    (analysis_results (analyze_emg_data (fun _ => Absent))) = None
  <-> source_outcome (fun _ => Absent)
        (S419, {| quad_col := Position 7; bicep_col := Position 3;
                  type := Other |}) = None.
Proof.
  assert (Hin : In (S419, {| quad_col := Position 7; bicep_col := Position 3;
                             type := Other |}) file_configs)
    by (simpl; auto).
  destruct (sources_are_independent (fun _ => Absent) (fun _ => Absent)
              _ Hin eq_refl) as (_ & _ & _ & H & _).
  exact H.
Defined.

(** The page shows the no-data message, and nothing else, exactly when no
    configured source could be analysed; with at least one analysed source
    it builds both tables and every chart. *)
Theorem no_usable_source_no_data (files : source_name -> file_state) :
  (init (analyze_emg_data files) = [ShowNoData]
   <-> forall item, In item file_configs -> source_outcome files item = None)
  /\ (init (analyze_emg_data files) <> [ShowNoData] ->
      init (analyze_emg_data files)
      = [DisplayBasicResults; DisplayDetailedStats;
         CreateIntegratedChart; CreateRMSChart;
         CreateTimeSeriesChart S419; CreateTimeSeriesChart S445;
         CreateTimeSeriesChart SNoraxon]).
Proof.
  unfold init, analyze_emg_data. rewrite process_sources_fold. cbv zeta.
  cbn [analysis_results no_analysis app]. unfold file_configs.
  cbn [flat_map].
  destruct (source_outcome files (S419, _)) as [e1|] eqn:E1;
    destruct (source_outcome files (S445, _)) as [e2|] eqn:E2;
    destruct (source_outcome files (SNoraxon, _)) as [e3|] eqn:E3;
    cbn; (split; [split|]); try discriminate; try congruence;
    try (intros H;
         first [ specialize (H _ (or_introl eq_refl)); congruence
               | specialize (H _ (or_intror (or_introl eq_refl))); congruence
               | specialize (H _ (or_intror (or_intror (or_introl eq_refl))));
                 congruence ]).
  intros _ item [<-|[<-|[<-|[]]]]; assumption.
Qed.

Lemma configured_source (name : source_name) :
  exists item, In item file_configs /\ fst item = name
               /\ assigned_sampling_rate (type (snd item))
                  = match name with
                    | SNoraxon => 2000%nat
                    | _ => 1000%nat
                    end.
Proof.
  destruct name.
  - exists (S419, {| quad_col := Position 7; bicep_col := Position 3;
                     type := Other |}).
    cbn. auto.
  - exists (S445, {| quad_col := Position 7; bicep_col := Position 3;
                     type := Other |}).
    cbn. auto.
  - exists (SNoraxon, {| quad_col := Label Labels.RT_VMO;
                         bicep_col := Label Labels.RT_SEMITEND;
                         type := Noraxon |}).
    cbn. auto 6.
Qed.

(** Every series the analysis exports is charted in at most one hundred
    points: its sampling rate is 2000 Hz for Noraxon and 1000 Hz otherwise,
    so for both channels both chart loops end within 101 evaluations of
    their condition, with one point per tenth of a second. *)
Theorem exported_series_chart_within_hundred_points
    (files : source_name -> file_state) (name : source_name)
    (e : time_series_entry) (fuel : nat) :
  find_source name (time_series_data (analyze_emg_data files)) = Some e ->
  (100 < fuel)%nat ->
  entry_sampling_rate e
  = match name with SNoraxon => 2000%nat | _ => 1000%nat end
  /\ forall yData, yData = quad_data e \/ yData = bicep_data e ->
       exists ts means rmss,
         IntegratedChart.resample fuel yData (Some (entry_sampling_rate e))
         = Some (ts, means)
         /\ RMSChart.resample fuel yData (Some (entry_sampling_rate e))
            = Some (ts, rmss)
         /\ length means = length ts /\ length rmss = length ts
         /\ (length ts <= 100)%nat
         /\ forall k, (k < length ts)%nat -> nth k ts 0 = INR k / 10.
Proof.
  intros Hfind Hfuel.
  destruct (configured_source name) as (item & Hin & Hname & Hrate).
  destruct (analysis_lookup files item Hin) as (_ & _ & H3).
  rewrite Hname, Hfind in H3.
  assert (He : entry_sampling_rate e
               = assigned_sampling_rate (type (snd item))).
  { unfold source_outcome in H3.
    destruct (files (fst item)) as [| |df]; try discriminate.
    destruct (df (quad_col (snd item))); try discriminate.
    destruct (df (bicep_col (snd item))); try discriminate.
    cbn in H3. injection H3 as ->. reflexivity. }
  split; [now rewrite He|].
  intros yData _. rewrite He.
  now apply assigned_rates_resample.
Qed.

Lemma exported_series_chart_within_hundred_points_witness :
  entry_sampling_rate
    {| quad_data := dropna [Some 1]; bicep_data := dropna [Some 2];
       entry_sampling_rate := assigned_sampling_rate Other |}
  = 1000%nat.
Proof.
  assert (Hfind :
    find_source S419
      (time_series_data
         (analyze_emg_data
            (fun _ => Readable (fun key =>
               match key with
               | Position 7 => Some [Some 1]
               | Position 3 => Some [Some 2]
               | _ => None
               end))))
    = Some {| quad_data := dropna [Some 1]; bicep_data := dropna [Some 2];
              entry_sampling_rate := assigned_sampling_rate Other |})
    by reflexivity.
  assert (Hfuel : (100 < 101)%nat) by lia.
  exact (proj1 (exported_series_chart_within_hundred_points _ S419 _ 101
                  Hfind Hfuel)).
Defined.



(** ** The order of the samples *)

Lemma Rsum_perm (a a' : list R) : Permutation a a' -> Rsum a = Rsum a'.
Proof.
  induction 1 as [|x l l' _ IH|x y l|l l' l'' _ IH1 _ IH2]; simpl; lra.
Qed.

Lemma sorted_perm_eq (l : list R) :
  StronglySorted Rle l ->
  forall l', StronglySorted Rle l' -> Permutation l l' -> l = l'.
Proof.
  induction 1 as [|x l Hs IH Hall]; intros l' Hs' Hp.
  - apply Permutation_nil in Hp. now subst.
  - destruct l' as [|y l'].
    + apply Permutation_sym, Permutation_nil in Hp. discriminate.
    + inversion Hs' as [|? ? Hs'' Hall']; subst.
      rewrite Forall_forall in Hall, Hall'.
      assert (Exy : x = y).
      { assert (Hy : In y (x :: l))
          by (apply (Permutation_in _ (Permutation_sym Hp)); now left).
        assert (Hx : In x (y :: l'))
          by (apply (Permutation_in _ Hp); now left).
        destruct Hy as [Hy|Hy]; [now symmetry|].
        destruct Hx as [Hx|Hx]; [exact (eq_sym Hx)|].
        specialize (Hall _ Hy). specialize (Hall' _ Hx). lra. }
      subst y. f_equal. apply IH; [exact Hs''|].
      now apply Permutation_cons_inv with x.
Qed.

Lemma np_sort_perm_eq (a a' : list R) :
  Permutation a a' -> np_sort a = np_sort a'.
Proof.
  intros Hp. apply sorted_perm_eq; try apply np_sort_sorted.
  rewrite <- (np_sort_perm a), <- (np_sort_perm a'). exact Hp.
Qed.

Lemma np_percentile_perm (a a' : list R) (q : R) :
  Permutation a a' -> np_percentile a q = np_percentile a' q.
Proof.
  intros Hp. unfold np_percentile, next_index, previous_index, gamma,
    virtual_index.
  now rewrite (np_sort_perm_eq a a' Hp), (Permutation_length Hp).
Qed.

Lemma np_mean_perm (a a' : list R) :
  Permutation a a' -> np_mean a = np_mean a'.
Proof.
  intros Hp. unfold np_mean.
  now rewrite !np_sum_Rsum, (Rsum_perm _ _ Hp), (Permutation_length Hp).
Qed.

Lemma np_max_perm (a a' : list R) :
  Permutation a a' -> np_max a = np_max a'.
Proof.
  intros Hp. destruct a as [|x a].
  - apply Permutation_nil in Hp. now subst.
  - assert (Hne : x :: a <> []) by discriminate.
    assert (Hne' : a' <> []).
    { intros E. subst. apply Permutation_sym, Permutation_nil in Hp.
      discriminate. }
    destruct (np_max_spec _ Hne) as [Hin Hub].
    destruct (np_max_spec _ Hne') as [Hin' Hub'].
    apply (Permutation_in _ Hp) in Hin.
    apply (Permutation_in _ (Permutation_sym Hp)) in Hin'.
    specialize (Hub _ Hin'). specialize (Hub' _ Hin). lra.
Qed.

Lemma np_min_perm (a a' : list R) :
  Permutation a a' -> np_min a = np_min a'.
Proof.
  intros Hp. destruct a as [|x a].
  - apply Permutation_nil in Hp. now subst.
  - assert (Hne : x :: a <> []) by discriminate.
    assert (Hne' : a' <> []).
    { intros E. subst. apply Permutation_sym, Permutation_nil in Hp.
      discriminate. }
    destruct (np_min_spec _ Hne) as [Hin Hlb].
    destruct (np_min_spec _ Hne') as [Hin' Hlb'].
    apply (Permutation_in _ Hp) in Hin.
    apply (Permutation_in _ (Permutation_sym Hp)) in Hin'.
    specialize (Hlb _ Hin'). specialize (Hlb' _ Hin). lra.
Qed.

Lemma np_std_perm (a a' : list R) :
  Permutation a a' -> np_std a = np_std a'.
Proof.
  intros Hp. unfold np_std. cbv zeta.
  rewrite !np_sum_Rsum, (np_mean_perm _ _ Hp), (Permutation_length Hp).
  f_equal. f_equal. apply Rsum_perm. now apply Permutation_map.
Qed.

Lemma rms_perm (a a' : list R) :
  Permutation a a' ->
  sqrt (np_mean (squares a)) = sqrt (np_mean (squares a')).
Proof.
  intros Hp. f_equal. apply np_mean_perm. unfold squares.
  now apply Permutation_map.
Qed.

Lemma mask_between_perm (lo hi : R) (a a' : list R) :
  Permutation a a' ->
  Permutation (mask_between lo hi a) (mask_between lo hi a').
Proof.
  unfold mask_between.
  induction 1 as [|x l l' _ IH|x y l|l l' l'' _ IH1 _ IH2]; simpl.
  - constructor.
  - destruct (Rleb lo x && Rleb x hi); [now constructor|exact IH].
  - destruct (Rleb lo x && Rleb x hi), (Rleb lo y && Rleb y hi);
      try reflexivity. apply perm_swap.
  - now transitivity (filter (fun x => Rleb lo x && Rleb x hi) l').
Qed.

(** In exact arithmetic the bundle depends on which samples a column holds,
    not on their order: two columns whose numeric samples are a
    rearrangement of one another get the same bundle, trimming thresholds
    included. *)
Theorem statistics_ignore_sample_order
    (series series' : list cell) (remove_outliers : bool) :
  Permutation (dropna series) (dropna series') ->
  calculate_statistics series remove_outliers
  = calculate_statistics series' remove_outliers.
Proof.
  intros Hp.
  unfold calculate_statistics, calculate_statistics_with.
  destruct (dropna series) as [|y ys] eqn:E;
    destruct (dropna series') as [|y' ys'] eqn:E'.
  - reflexivity.
  - apply Permutation_nil in Hp. discriminate.
  - apply Permutation_sym, Permutation_nil in Hp. discriminate.
  - set (x := y :: ys) in *. set (x' := y' :: ys') in *.
    assert (Hlen : len x = len x')
      by (unfold len; now rewrite (Permutation_length Hp)).
    pose proof (mask_between_perm (np_percentile x 2.5)
                  (np_percentile x 97.5) x x' Hp) as Hk.
    rewrite <- !(np_percentile_perm x x' _ Hp), <- Hlen.
    set (kept := mask_between _ _ x) in *.
    set (kept' := mask_between _ _ x') in *.
    assert (Hklen : len kept = len kept')
      by (unfold len; now rewrite (Permutation_length Hk)).
    rewrite <- (rms_perm x x' Hp), <- (np_mean_perm x x' Hp),
      <- (np_std_perm x x' Hp), <- (np_max_perm x x' Hp),
      <- (np_min_perm x x' Hp).
    rewrite <- (rms_perm kept kept' Hk), <- (np_mean_perm kept kept' Hk),
      <- (np_std_perm kept kept' Hk), <- (np_max_perm kept kept' Hk),
      <- (np_min_perm kept kept' Hk), <- Hklen.
    reflexivity.
Qed.

Lemma statistics_ignore_sample_order_witness :
  calculate_statistics [Some 3; None; Some 4] true
  = calculate_statistics [Some 4; Some 3] true.
Proof.
  apply (statistics_ignore_sample_order [Some 3; None; Some 4]
           [Some 4; Some 3] true).
  simpl. apply perm_swap.
Defined.
